(** * keepachangelog: the changelog reader and the release promoter

    A shallow embedding of [keepachangelog/_changelog.py].

    - A Python [str] is a [string]; the [str] methods the module calls
      ([lstrip], [rstrip], [strip], [replace]) are written out below.  What
      the class [\w] says of a character beyond ASCII is a parameter.
    - A changelog file is the text that reading it in text mode gives, and
      today's date is a parameter of [release_version].
    - An exception is a value of [exn]; a computation that may raise returns
      a [result].
    - The three regular expressions of [release_version] are run by a small
      backtracking matcher ([fullmatch]) over the constructs they use.
    - The dictionaries and lists that [to_dict] builds are shared, mutable
      Python objects: they live in a [heap] and are named by address. *)

From Stdlib Require Import Ascii String.
From stdpp Require Import base option list strings.

Local Open Scope string_scope.
Local Open Scope list_scope.

(** ** Exceptions *)

Inductive exn : Set :=
| IndexError
| AttributeError
| UnboundLocalError
| TypeError
| NameError.

Inductive result (A : Type) : Type :=
| Ok (a : A)
| Raise (e : exn).
Arguments Ok {A} a.
Arguments Raise {A} e.

Definition bind {A B : Type} (r : result A) (k : A -> result B) : result B :=
  match r with
  | Ok a => k a
  | Raise e => Raise e
  end.

Notation "'let*' x ':=' r 'in' k" := (bind r (fun x => k))
  (at level 10, x pattern, r at level 100, k at level 200).

(** ** Python strings *)

Module Str.

Definition newline : ascii := Ascii.ascii_of_nat 10.

Definition nl : string := String newline EmptyString.

(** [c in chars] for a one-character [c]. *)
Fixpoint mem (c : ascii) (chars : string) : bool :=
  match chars with
  | EmptyString => false
  | String d chars' => Ascii.eqb c d || mem c chars'
  end.

(** [s.lstrip(chars)]: drop the leading characters that are in [chars]. *)
Fixpoint lstrip (chars s : string) : string :=
  match s with
  | EmptyString => EmptyString
  | String c s' => if mem c chars then lstrip chars s' else s
  end.

(** [s.rstrip(chars)]: drop the trailing characters that are in [chars]. *)
Fixpoint rstrip (chars s : string) : string :=
  match s with
  | EmptyString => EmptyString
  | String c s' =>
      match rstrip chars s' with
      | EmptyString => if mem c chars then EmptyString else String c EmptyString
      | r => String c r
      end
  end.

(** [s.strip(chars)]. *)
Definition strip (chars s : string) : string := rstrip chars (lstrip chars s).

(** [s.startswith(p)], returning what follows the prefix. *)
Fixpoint drop_prefix (p s : string) : option string :=
  match p with
  | EmptyString => Some s
  | String a p' =>
      match s with
      | EmptyString => None
      | String b s' => if Ascii.eqb a b then drop_prefix p' s' else None
      end
  end.

Definition startswith (s p : string) : bool :=
  match drop_prefix p s with Some _ => true | None => false end.

(** [old in s], for a non-empty [old]. *)
Fixpoint contains (old s : string) : bool :=
  match s with
  | EmptyString => false
  | String _ s' => startswith s old || contains old s'
  end.

(** The scan of [s.replace(old, new)] for a non-empty [old]: left to
    right, occurrences do not overlap.  [skip] counts the characters of
    the occurrence just replaced that are still to be passed over. *)
Fixpoint replace_scan (old new : string) (skip : nat) (s : string) : string :=
  match s with
  | EmptyString => EmptyString
  | String c s' =>
      match skip with
      | S k => replace_scan old new k s'
      | O =>
          if startswith s old
          then new +:+ replace_scan old new (String.length old - 1) s'
          else String c (replace_scan old new 0 s')
      end
  end.

(** [s.replace("", new)] puts [new] before every character and at the
    end. *)
Fixpoint intersperse (new s : string) : string :=
  match s with
  | EmptyString => new
  | String c s' => new +:+ String c (intersperse new s')
  end.

(** [s.replace(old, new)]. *)
Definition replace (old new s : string) : string :=
  match old with
  | EmptyString => intersperse new s
  | _ => replace_scan old new 0 s
  end.

(** [f.readlines()], and the iteration over [f], for a file opened in text
    mode whose text is [s]: the lines of [s], each with its terminating
    newline, the last one possibly without. *)
Fixpoint readlines (s : string) : list string :=
  match s with
  | EmptyString => []
  | String c s' =>
      if Ascii.eqb c newline then String c EmptyString :: readlines s'
      else match readlines s' with
           | [] => [String c EmptyString]
           | line :: rest => String c line :: rest
           end
  end.

(** [f.writelines(lines)]: the lines one after the other, nothing added. *)
Definition writelines (lines : list string) : string :=
  fold_right String.append EmptyString lines.

End Str.

(** ** Regular expressions

    The patterns of the module are sequences of literal text and greedy
    stars over a character class, some of them capturing.  Under
    [re.fullmatch] the anchors [^] and [$] add nothing, and with [re.DOTALL]
    the dot is every character, the newline included. *)

Module Re.

Inductive piece : Type :=
| Lit (text : string)
| Star (class : ascii -> bool) (capture : bool).

Definition dot : ascii -> bool := fun _ => true.

Section Word.
(** What [\w] says of a character beyond ASCII is the Unicode table's. *)
Variable unicode_word : ascii -> bool.

Definition between (lo c hi : ascii) : bool :=
  (nat_of_ascii lo <=? nat_of_ascii c)%nat && (nat_of_ascii c <=? nat_of_ascii hi)%nat.

(** [\w]: letters, digits and the underscore. *)
Definition word (c : ascii) : bool :=
  if (nat_of_ascii c <? 128)%nat
  then between "a" c "z" || between "A" c "Z" || between "0" c "9" || Ascii.eqb c "_"
  else unicode_word c.
End Word.

(** A greedy star in front of the rest of the pattern [k]: it first takes
    as many characters as it can and gives them back one at a time while
    the rest fails.  [taken] is what the star has taken so far. *)
Fixpoint star (class : ascii -> bool) (k : string -> string -> option (list string))
  (taken s : string) {struct s} : option (list string) :=
  match s with
  | EmptyString => k taken s
  | String c s' =>
      if class c
      then match star class k (taken +:+ String c EmptyString) s' with
           | Some groups => Some groups
           | None => k taken s
           end
      else k taken s
  end.

(** [re.fullmatch(p, s)]: [None] when [s] does not match, otherwise the
    captured groups, in order. *)
Fixpoint fullmatch (p : list piece) (s : string) {struct p} : option (list string) :=
  match p with
  | [] => match s with EmptyString => Some [] | _ => None end
  | Lit text :: p' =>
      match Str.drop_prefix text s with
      | Some rest => fullmatch p' rest
      | None => None
      end
  | Star class capture :: p' =>
      star class
        (fun taken rest =>
           match fullmatch p' rest with
           | Some groups => Some (if capture then taken :: groups else groups)
           | None => None
           end)
        EmptyString s
  end.

(** [bool(re.fullmatch(p, s))]. *)
Definition matches (p : list piece) (s : string) : bool :=
  match fullmatch p s with Some _ => true | None => false end.

End Re.

(** ** The release promoter *)

Section Promoter.

(** The Unicode part of [\w]. *)
Variable unicode_word : ascii -> bool.

(** [datetime.date.today().isoformat()]. *)
Variable today : string.

(** The heading pattern: [^## \[Unreleased\]] and then [.*$]. *)
Definition unreleased_heading_pattern : list Re.piece :=
  [Re.Lit "## [Unreleased]"; Re.Star Re.dot false].

(** The link pattern: [^\[Unreleased\]: ] and then a captured [.*] and
    [$]. *)
Definition unreleased_link_pattern : list Re.piece :=
  [Re.Lit "[Unreleased]: "; Re.Star Re.dot true].

(** The compare pattern: [^.*/], a captured [.*], [\.\.\.], a captured
    [\w*], and [.*$]. *)
Definition unreleased_compare_pattern : list Re.piece :=
  [Re.Star Re.dot false; Re.Lit "/"; Re.Star Re.dot true; Re.Lit "...";
   Re.Star (Re.word unicode_word) true; Re.Star Re.dot false].

(** [str.replace] wants two strings: [None] in either place is a
    [TypeError]. *)
Definition replace_opt (old new : option string) (s : string) : result string :=
  match old, new with
  | Some old, Some new => Ok (Str.replace old new s)
  | _, _ => Raise TypeError
  end.

(** The body of the loop of [release_version]: what one input line appends
    to [lines]. *)
Definition promote_line (current_version : option string) (new_version line : string)
  : result (list string) :=
  match Re.fullmatch unreleased_heading_pattern line with
  | Some _ =>
      Ok [line; Str.nl; "## [" +:+ new_version +:+ "] - " +:+ today +:+ Str.nl]
  | None =>
      match Re.fullmatch unreleased_link_pattern line with
      | Some _ =>
          match Re.fullmatch unreleased_compare_pattern line with
          | Some groups =>
              let* new_unreleased_link :=
                replace_opt current_version (Some new_version) line in
              let current_tag := nth 0 groups EmptyString in
              let unreleased_tag := nth 1 groups EmptyString in
              let* new_tag :=
                replace_opt current_version (Some new_version) current_tag in
              let* restored := replace_opt (Some new_version) current_version line in
              Ok [new_unreleased_link;
                  Str.replace "Unreleased" new_version
                    (Str.replace unreleased_tag new_tag restored)]
          | None => Ok [line; Str.replace "Unreleased" new_version line]
          end
      | None => Ok [line]
      end
  end.

(** The loop: [lines] is the list built so far. *)
Fixpoint promote_lines (current_version : option string) (new_version : string)
  (input lines : list string) : result (list string) :=
  match input with
  | [] => Ok lines
  | line :: input' =>
      let* appended := promote_line current_version new_version line in
      promote_lines current_version new_version input' (lines ++ appended)
  end.

(** [release_version], from the text of the changelog file to the text it
    is rewritten with.  When the loop raises, the file is not rewritten. *)
Definition release_version (current_version : option string) (new_version : string)
  (change_log : string) : result string :=
  let* lines := promote_lines current_version new_version (Str.readlines change_log) [] in
  Ok (Str.writelines lines).

End Promoter.

(** ** The parsed document

    The Markdown parser is a library: its tokens are data here.  A span
    token is raw text, a link, or something else; only some span tokens have
    a [content] attribute. *)

#[warnings="-register-all"]
Inductive span_token : Type :=
| RawText (content : string)
| Link (children : list span_token) (target : string)
| OtherSpan (content : option string) (children : list span_token).

#[warnings="-register-all"]
Inductive block_token : Type :=
| Heading (level : nat) (children : list span_token)
| Paragraph (children : list span_token)
| List (children : list block_token)
| ListItem (children : list block_token)
| OtherBlock.

(** What the module passes around as [section]: a block of the parsed
    document in [to_dict], a line of text in [to_raw_dict]. *)
Inductive pyobj : Type :=
| Block (b : block_token)
| Text (s : string).

(** [token.content]. *)
Definition content_of (token : span_token) : result string :=
  match token with
  | RawText content => Ok content
  | Link _ _ => Raise AttributeError
  | OtherSpan (Some content) _ => Ok content
  | OtherSpan None _ => Raise AttributeError
  end.

(** [tokens[i]]. *)
Definition item {A : Type} (tokens : list A) (i : nat) : result A :=
  match tokens !! i with
  | Some token => Ok token
  | None => Raise IndexError
  end.

(** ** The heap of Python objects *)

Inductive value : Type :=
| VStr (s : string)
| VRef (address : nat).

Inductive object : Type :=
| Dict (items : list (string * value))
| PyList (items : list string).

Abbreviation heap := (list object).

(** A new object, and its address. *)
Definition alloc (h : heap) (o : object) : heap * value :=
  (h ++ [o], VRef (length h)).

(** [d[key]] on the items of a dictionary. *)
Fixpoint lookup_key {V : Type} (key : string) (items : list (string * V)) : option V :=
  match items with
  | [] => None
  | (k, v) :: items' => if String.eqb k key then Some v else lookup_key key items'
  end.

(** [d.setdefault(key, default)] where [default] is an object built for the
    call: it is kept only when [key] is new, and then goes last. *)
Definition setdefault (h : heap) (d : value) (key : string) (default : object)
  : result (heap * value) :=
  match d with
  | VRef a =>
      match h !! a with
      | Some (Dict items) =>
          match lookup_key key items with
          | Some v => Ok (h, v)
          | None =>
              let (h', v) := alloc h default in
              Ok (<[a := Dict (items ++ [(key, v)])]> h', v)
          end
      | _ => Raise AttributeError
      end
  | VStr _ => Raise AttributeError
  end.

(** [l.append(x)]. *)
Definition append (h : heap) (l : value) (x : string) : result heap :=
  match l with
  | VRef a =>
      match h !! a with
      | Some (PyList items) => Ok (<[a := PyList (items ++ [x])]> h)
      | _ => Raise AttributeError
      end
  | VStr _ => Raise AttributeError
  end.

(** [bool(v)]: a string, a dictionary or a list is true when it is not
    empty. *)
Definition truthy (h : heap) (v : value) : bool :=
  match v with
  | VStr EmptyString => false
  | VStr _ => true
  | VRef a =>
      match h !! a with
      | Some (Dict []) | Some (PyList []) | None => false
      | Some _ => true
      end
  end.

(** ** The reader *)

Definition is_release (section : pyobj) : bool :=
  match section with
  | Block (Heading level _) => Nat.eqb level 2
  | _ => false
  end.

Definition is_category (section : pyobj) : bool :=
  match section with
  | Block (Heading level _) => Nat.eqb level 3
  | _ => false
  end.

Definition is_list (section : pyobj) : bool :=
  match section with
  | Block (List _) => true
  | _ => false
  end.

Definition unlink (value : string) : string :=
  Str.rstrip "]" (Str.lstrip "[" value).

Definition extract_date (date : string) : string :=
  match date with
  | EmptyString => date
  | _ => Str.rstrip " )" (Str.lstrip " -(" date)
  end.

(** [section.children] as [add_release] and [add_category] use it: the
    inline children of a heading.  [to_dict] hands them headings only, having
    tested [is_release] and [is_category]; a line of text has no such
    attribute. *)
Definition heading_children (section : pyobj) : result (list span_token) :=
  match section with
  | Block (Heading _ children) => Ok children
  | _ => Raise AttributeError
  end.

(** The part of [add_release] before the dictionary is touched: [None] is
    the early return, otherwise the local variables [version] and
    [release_date].  [version] stays unbound when the first token is neither
    raw text nor a link, which shows when it is read, after
    [release_date]. *)
Definition release_fields (section : pyobj) (show_unreleased : bool)
  : result (option (string * string)) :=
  let* children := heading_children section in
  if Nat.eqb (length children) 1 && negb show_unreleased then Ok None
  else
    let* version_token := item children 0 in
    let* version :=
      match version_token with
      | RawText content => Ok (Some (unlink content))
      | Link link_children _ =>
          let* label := item link_children 0 in
          let* content := content_of label in
          Ok (Some content)
      | OtherSpan _ _ => Ok None
      end in
    let* date_token := item children 1 in
    let* release_date := content_of date_token in
    match version with
    | Some version => Ok (Some (version, release_date))
    | None => Raise UnboundLocalError
    end.

Definition add_release (h : heap) (changes : value) (section : pyobj)
  (show_unreleased : bool) : result (heap * value) :=
  let* fields := release_fields section show_unreleased in
  match fields with
  | None => Ok (alloc h (Dict []))
  | Some (version, release_date) =>
      setdefault h changes version
        (Dict [("version", VStr version);
               ("release_date", VStr (extract_date release_date))])
  end.

Definition add_category (h : heap) (release : value) (section : pyobj)
  : result (heap * value) :=
  let* children := heading_children section in
  let* token := item children 0 in
  let* category := content_of token in
  setdefault h release category (PyList []).

Section Reader.

(** [BaseRenderer().render]: the library's rendering of a list item. *)
Variable render : block_token -> string.

Definition extract_change_entry (list_entry : block_token) : string :=
  render list_entry.

(** The loop of [add_change_list] over the entries. *)
Fixpoint append_entries (h : heap) (category : value) (entries : list block_token)
  : result heap :=
  match entries with
  | [] => Ok h
  | list_entry :: entries' =>
      let* h' := append h category (extract_change_entry list_entry) in
      append_entries h' category entries'
  end.

Definition add_change_list (h : heap) (category : value) (section : pyobj)
  : result heap :=
  match section with
  | Block (List children) => append_entries h category children
  | _ => Raise AttributeError
  end.

(** The variables of [to_dict] while it runs. *)
Record frame : Type := Frame {
  objects : heap;
  changes : value;
  current_release : value;
  category : value
}.

(** [changes = {}], [current_release = {}], [category = []]. *)
Definition start : frame :=
  Frame [Dict []; Dict []; PyList []] (VRef 0) (VRef 1) (VRef 2).

(** One turn of the loop of [to_dict]. *)
Definition visit (show_unreleased : bool) (f : frame) (block : block_token)
  : result frame :=
  let section := Block block in
  if is_release section then
    let* (h, release) := add_release (objects f) (changes f) section show_unreleased in
    Ok (Frame h (changes f) release (category f))
  else if is_category section then
    let* (h, cat) := add_category (objects f) (current_release f) section in
    Ok (Frame h (changes f) (current_release f) cat)
  else if is_list section
          && truthy (objects f) (current_release f)
          && truthy (objects f) (category f) then
    let* h := add_change_list (objects f) (category f) section in
    Ok (Frame h (changes f) (current_release f) (category f))
  else Ok f.

Fixpoint visit_all (show_unreleased : bool) (f : frame) (sections : list block_token)
  : result frame :=
  match sections with
  | [] => Ok f
  | section :: sections' =>
      let* f' := visit show_unreleased f section in
      visit_all show_unreleased f' sections'
  end.

(** [to_dict], from the blocks of the parsed document ([Document(...)
    .children]) to the heap it leaves and the dictionary it returns. *)
Definition to_dict (parsed_changelog : list block_token) (show_unreleased : bool)
  : result (heap * value) :=
  let* f := visit_all show_unreleased start parsed_changelog in
  Ok (objects f, changes f).

End Reader.

(** ** Reading a result off the heap *)

Inductive field : Type :=
| FStr (s : string)
| FList (entries : list string).

Definition read_field (h : heap) (v : value) : option field :=
  match v with
  | VStr s => Some (FStr s)
  | VRef a =>
      match h !! a with
      | Some (PyList entries) => Some (FList entries)
      | _ => None
      end
  end.

Definition read_items {A : Type} (read : value -> option A) (items : list (string * value))
  : option (list (string * A)) :=
  mapM (fun kv => pair kv.1 <$> read kv.2) items.

Definition read_release (h : heap) (v : value) : option (list (string * field)) :=
  match v with
  | VRef a =>
      match h !! a with
      | Some (Dict items) => read_items (read_field h) items
      | _ => None
      end
  | VStr _ => None
  end.

(** The returned dictionary as nested association lists, in insertion
    order. *)
Definition read_changelog (r : heap * value)
  : option (list (string * list (string * field))) :=
  match r.2 with
  | VRef a =>
      match r.1 !! a with
      | Some (Dict items) => read_items (read_release r.1) items
      | _ => None
      end
  | VStr _ => None
  end.

(** [to_dict], read off. *)
Definition to_dict_view (render : block_token -> string)
  (parsed_changelog : list block_token) (show_unreleased : bool)
  : result (option (list (string * list (string * field)))) :=
  let* r := to_dict render parsed_changelog show_unreleased in
  Ok (read_changelog r).

(** ** The raw reader *)

(** [d.get(key, default)]. *)
Definition dict_get (h : heap) (d : value) (key : string) (default : value)
  : result value :=
  match d with
  | VRef a =>
      match h !! a with
      | Some (Dict items) => Ok (match lookup_key key items with Some v => v | None => default end)
      | _ => Raise AttributeError
      end
  | VStr _ => Raise AttributeError
  end.

(** [d[key] = v] on the items of a dictionary: a known key keeps its
    place. *)
Fixpoint assign_key (key : string) (v : value) (items : list (string * value))
  : list (string * value) :=
  match items with
  | [] => [(key, v)]
  | (k, w) :: items' =>
      if String.eqb k key then (k, v) :: items' else (k, w) :: assign_key key v items'
  end.

(** [d[key] = v]. *)
Definition dict_set (h : heap) (d : value) (key : string) (v : value) : result heap :=
  match d with
  | VRef a =>
      match h !! a with
      | Some (Dict items) => Ok (<[a := Dict (assign_key key v items)]> h)
      | _ => Raise TypeError
      end
  | VStr _ => Raise TypeError
  end.

(** [v + line] for a string [line]. *)
Definition plus_str (v : value) (line : string) : result value :=
  match v with
  | VStr s => Ok (VStr (s +:+ line))
  | VRef _ => Raise TypeError
  end.

Section RawReader.

(** [to_raw_dict] calls [is_information], a name the module neither
    defines nor imports.  Whatever it is bound to when the call is made is
    taken here as given; [unbound] below is the module on its own. *)
Variable is_information : string -> result bool.

(** One turn of the loop of [to_raw_dict]; [changes] is at address 0. *)
Definition raw_visit (st : heap * value) (line : string) : result (heap * value) :=
  let (h, current_release) := st in
  let clean_line := Str.strip (" " +:+ Str.nl) line in
  if is_release (Text clean_line) then
    add_release h (VRef 0) (Text clean_line) false
  else
    let* information :=
      if is_category (Text clean_line) then Ok true else is_information clean_line in
    if information : bool then
      let* raw := dict_get h current_release "raw" (VStr EmptyString) in
      let* raw' := plus_str raw line in
      let* h' := dict_set h current_release "raw" raw' in
      Ok (h', current_release)
    else Ok st.

Fixpoint raw_visit_all (st : heap * value) (lines : list string)
  : result (heap * value) :=
  match lines with
  | [] => Ok st
  | line :: lines' =>
      let* st' := raw_visit st line in
      raw_visit_all st' lines'
  end.

(** [to_raw_dict], from the text of the file to the heap it leaves and the
    dictionary it returns. *)
Definition to_raw_dict (change_log : string) : result (heap * value) :=
  let* st := raw_visit_all ([Dict []; Dict []], VRef 1) (Str.readlines change_log) in
  Ok (st.1, VRef 0).

End RawReader.

(** The call of a name that is not bound. *)
Definition unbound : string -> result bool := fun _ => Raise NameError.

(** ** The release *)

Section Release.

(** [Document(change_log).children]: the Markdown parser, on the text of
    the file. *)
Variable parse : string -> list block_token.

Variable render : block_token -> string.

(** [guess_unreleased_version], of the versioning module: from the
    dictionary of the changelog, the current version, if there is one, and
    the new one. *)
Variable guess_unreleased_version : list object * value -> result (option string * string).

Variable unicode_word : ascii -> bool.
Variable today : string.

(** [release], from the text of the changelog file to the text it is
    rewritten with and the new version, which is what it returns. *)
Definition release (change_log : string) : result (string * string) :=
  let* changelog := to_dict render (parse change_log) true in
  let* (current_version, new_version) := guess_unreleased_version changelog in
  let* rewritten :=
    release_version unicode_word today current_version new_version change_log in
  Ok (rewritten, new_version).

End Release.

(** ** The reader without the heap

    What [to_dict] returns, computed on values: the releases so far, and the
    version of the release that [current_release] is, when it is one of
    them. *)

Record summary : Type := Summary {
  releases : list (string * list (string * field));
  current : option string
}.

(** [fields.setdefault(key, default)], on values. *)
Definition setdefault_field (key : string) (default : field)
  (fields : list (string * field)) : list (string * field) :=
  match lookup_key key fields with
  | Some _ => fields
  | None => fields ++ [(key, default)]
  end.

(** [f] on the value of [key]. *)
Fixpoint update_key {V : Type} (key : string) (f : V -> V) (items : list (string * V))
  : list (string * V) :=
  match items with
  | [] => []
  | (k, v) :: items' =>
      if String.eqb k key then (k, f v) :: items' else (k, v) :: update_key key f items'
  end.

(** The name that [add_category] reads off a heading. *)
Definition category_name (section : pyobj) : result string :=
  let* children := heading_children section in
  let* token := item children 0 in
  content_of token.

(** One block: a release heading registers its release and makes it the
    current one, or makes none current when it is skipped; a category heading
    adds its name, with no entry, to the current release; nothing else
    counts. *)
Definition summarize (show_unreleased : bool) (s : summary) (block : block_token)
  : summary :=
  let section := Block block in
  if is_release section then
    match release_fields section show_unreleased with
    | Ok (Some (version, release_date)) =>
        Summary
          match lookup_key version (releases s) with
          | Some _ => releases s
          | None =>
              releases s
              ++ [(version, [("version", FStr version);
                             ("release_date", FStr (extract_date release_date))])]
          end
          (Some version)
    | Ok None => Summary (releases s) None
    | Raise _ => s
    end
  else if is_category section then
    match category_name section, current s with
    | Ok name, Some version =>
        Summary (update_key version (setdefault_field name (FList [])) (releases s))
                (current s)
    | _, _ => s
    end
  else s.

(** ** Notions used to state the properties *)

(** [s.endswith(p)]. *)
Fixpoint endswith (s p : string) : bool :=
  String.eqb s p
  || match s with
     | EmptyString => false
     | String _ s' => endswith s' p
     end.

(** [s * n]. *)
Fixpoint times (n : nat) (s : string) : string :=
  match n with
  | O => EmptyString
  | S n' => s +:+ times n' s
  end.

(** The version and the date that a block registers: those of a release
    heading that [add_release] takes as far as [setdefault]. *)
Definition registers (show_unreleased : bool) (block : block_token)
  : option (string * string) :=
  if is_release (Block block) then
    match release_fields (Block block) show_unreleased with
    | Ok (Some (version, release_date)) => Some (version, extract_date release_date)
    | _ => None
    end
  else None.

(** The registering headings of a document, in document order. *)
Definition registered (show_unreleased : bool) (parsed_changelog : list block_token)
  : list (string * string) :=
  omap (registers show_unreleased) parsed_changelog.

(** The keys of a list in the order of their first occurrence. *)
Fixpoint first_occurrences (keys : list string) : list string :=
  match keys with
  | [] => []
  | k :: keys' => k :: filter (fun k' => k' <> k) (first_occurrences keys')
  end.

(** [reg] after a heading that registers [entry]: a version already there
    keeps its place and its date. *)
Definition register (reg : list (string * string)) (entry : string * string)
  : list (string * string) :=
  match lookup_key entry.1 reg with
  | Some _ => reg
  | None => reg ++ [entry]
  end.

Definition register_block (show_unreleased : bool) (reg : list (string * string))
  (block : block_token) : list (string * string) :=
  match registers show_unreleased block with
  | Some entry => register reg entry
  | None => reg
  end.

(** A value of a release dictionary is a string or a list. *)
Definition field_ok (h : heap) (v : value) : Prop :=
  match v with
  | VStr _ => True
  | VRef b => exists entries, h !! b = Some (PyList entries)
  end.

(** The item [kv] of [changes] is the release registered as [entry]. *)
Definition release_ok (h : heap) (entry : string * string) (kv : string * value)
  : Prop :=
  kv.1 = entry.1
  /\ exists a fields,
      kv.2 = VRef a /\ a <> 0 /\ h !! a = Some (Dict fields)
      /\ lookup_key "version" fields = Some (VStr entry.1)
      /\ lookup_key "release_date" fields = Some (VStr entry.2)
      /\ Forall (fun f => field_ok h f.2) fields.

(** What is read of a registered release. *)
Definition release_read (entry : string * string) (kr : string * list (string * field))
  : Prop :=
  kr.1 = entry.1
  /\ lookup_key "version" kr.2 = Some (FStr entry.1)
  /\ lookup_key "release_date" kr.2 = Some (FStr entry.2).

(** What [to_dict] keeps true of its variables: [changes] is the dictionary
    at address 0 and holds the releases registered so far, in order;
    [current_release] is another object. *)
Definition reader_inv (reg : list (string * string)) (f : frame) : Prop :=
  changes f = VRef 0
  /\ current_release f <> VRef 0
  /\ exists items,
      objects f !! 0 = Some (Dict items) /\ Forall2 (release_ok (objects f)) reg items.

(** From [h] to [h']: a list is still a list; a dictionary other than
    [changes] has its items, and then some, each a string or a list. *)
Definition grows (h h' : heap) : Prop :=
  forall a o, h !! a = Some o ->
    match o with
    | PyList _ => exists entries, h' !! a = Some (PyList entries)
    | Dict items =>
        a <> 0 ->
        exists extra,
          h' !! a = Some (Dict (items ++ extra))
          /\ Forall (fun f => field_ok h' f.2) extra
    end.

(** No list on the heap has an entry. *)
Definition lists_empty (h : heap) : Prop :=
  Forall (fun o => match o with PyList entries => entries = [] | Dict _ => True end) h.

(** Every character of [s] is in [chars]. *)
Fixpoint all_in (chars s : string) : bool :=
  match s with
  | EmptyString => true
  | String c s' => Str.mem c chars && all_in chars s'
  end.

(** Every character of [s] satisfies [p]. *)
Fixpoint all_chars (p : ascii -> bool) (s : string) : bool :=
  match s with
  | EmptyString => true
  | String c s' => p c && all_chars p s'
  end.

(** [s] does not start with a character that satisfies [p]. *)
Definition stops (p : ascii -> bool) (s : string) : bool :=
  match s with
  | EmptyString => true
  | String c _ => negb (p c)
  end.

(** How many lines satisfy [p]. *)
Fixpoint count_lines (p : string -> bool) (lines : list string) : nat :=
  match lines with
  | [] => 0
  | line :: lines' => (if p line then 1 else 0) + count_lines p lines'
  end.

(** The heaps [h] and [h'] hold the same objects, but perhaps at [a] and
    where [h] has none. *)
Definition agree_off (a : nat) (h h' : heap) : Prop :=
  forall x o, x <> a -> h !! x = Some o -> h' !! x = Some o.

(** The item [kv] of [changes] is a release, other than [changes] itself,
    that reads as [kr]. *)
Definition entry_of (h : heap) (kr : string * list (string * field))
  (kv : string * value) : Prop :=
  kr.1 = kv.1 /\ kv.2 <> VRef 0 /\ read_release h kv.2 = Some kr.2.

(** The variables of [to_dict] are as the summary says: the releases of
    [changes] read as those of the summary, no two of them are the same
    object, and [current_release] is the release the summary names, or an
    object that is not in [changes]. *)
Definition refines (s : summary) (f : frame) : Prop :=
  changes f = VRef 0
  /\ lists_empty (objects f)
  /\ exists items,
      objects f !! 0 = Some (Dict items)
      /\ Forall2 (entry_of (objects f)) (releases s) items
      /\ NoDup items.*2
      /\ match current s with
         | Some version => lookup_key version items = Some (current_release f)
         | None => current_release f <> VRef 0 /\ current_release f ∉ items.*2
         end.

(** * Properties *)

(** ** Strings *)

#[local] Arguments String.append _ _ : simpl nomatch.

Lemma append_nil_r (s : string) : s +:+ EmptyString = s.
Proof. induction s as [|c s IH]; simpl; [reflexivity | now rewrite IH]. Qed.

Lemma append_assoc (a b c : string) : (a +:+ b) +:+ c = a +:+ (b +:+ c).
Proof. induction a as [|x a IH]; simpl; [reflexivity | now rewrite IH]. Qed.

Lemma writelines_app (l1 l2 : list string) :
  Str.writelines (l1 ++ l2) = Str.writelines l1 +:+ Str.writelines l2.
Proof.
  unfold Str.writelines.
  induction l1 as [|x l1 IH]; simpl; [reflexivity |].
  now rewrite IH, append_assoc.
Qed.

(** Writing back the lines that were read gives the text that was read. *)
Lemma writelines_readlines (s : string) : Str.writelines (Str.readlines s) = s.
Proof.
  induction s as [|c s IH]; simpl; [reflexivity |].
  destruct (Ascii.eqb c Str.newline).
  - unfold Str.writelines in *. simpl. now rewrite IH.
  - destruct (Str.readlines s) as [|line rest] eqn:E.
    + unfold Str.writelines in *. simpl in *. now subst s.
    + unfold Str.writelines in *. simpl in *. now rewrite IH.
Qed.

Lemma drop_prefix_app (p s : string) : Str.drop_prefix p (p +:+ s) = Some s.
Proof.
  induction p as [|a p IH]; simpl; [reflexivity |].
  now rewrite Ascii.eqb_refl.
Qed.

Lemma drop_prefix_Some (p s rest : string) :
  Str.drop_prefix p s = Some rest -> s = p +:+ rest.
Proof.
  revert s. induction p as [|a p IH]; simpl; intros s H.
  - now inversion H.
  - destruct s as [|b s]; [discriminate |].
    destruct (Ascii.eqb a b) eqn:E; [| discriminate].
    apply Ascii.eqb_eq in E. subst b. f_equal. now apply IH.
Qed.

(** Where [old] does not occur, [replace] changes nothing. *)
Lemma replace_scan_absent (old new s : string) :
  Str.contains old s = false -> Str.replace_scan old new 0 s = s.
Proof.
  induction s as [|c s IH]; simpl; [reflexivity |].
  intros H. apply orb_false_iff in H as [H1 H2].
  unfold Str.startswith in H1 |- *.
  destruct (Str.drop_prefix old (String c s)); [discriminate |].
  now rewrite IH.
Qed.

Lemma replace_absent (old new s : string) :
  old <> EmptyString -> Str.contains old s = false -> Str.replace old new s = s.
Proof.
  intros Hold H. destruct old; [congruence |]. now apply replace_scan_absent.
Qed.

(** The label of an Unreleased link line is replaced, and the scan goes on
    in the URL. *)
Lemma replace_unreleased_link (new url : string) :
  Str.replace "Unreleased" new ("[Unreleased]: " +:+ url)
  = "[" +:+ new +:+ "]: " +:+ Str.replace "Unreleased" new url.
Proof.
  unfold Str.replace. simpl. reflexivity.
Qed.

(** ** Regular expressions *)

(** A star over every character takes the whole text when the rest of the
    pattern accepts the empty text. *)
Lemma star_dot_all (k : string -> string -> option (list string))
  (taken s : string) (groups : list string) :
  k (taken +:+ s) EmptyString = Some groups ->
  Re.star Re.dot k taken s = Some groups.
Proof.
  revert taken. induction s as [|c s IH]; intros taken H; simpl.
  - now rewrite append_nil_r in H.
  - rewrite IH; [reflexivity |]. now rewrite append_assoc.
Qed.

(** The heading pattern asks for the prefix [## [Unreleased]]. *)
Lemma heading_pattern_prefix (line : string) :
  Re.matches unreleased_heading_pattern line = Str.startswith line "## [Unreleased]".
Proof.
  unfold Re.matches, unreleased_heading_pattern, Str.startswith.
  cbn [Re.fullmatch].
  destruct (Str.drop_prefix "## [Unreleased]" line) as [rest|]; [| reflexivity].
  now erewrite star_dot_all by reflexivity.
Qed.

(** The link pattern asks for the prefix [[Unreleased]: ] and captures what
    follows it. *)
Lemma link_pattern_prefix (line : string) :
  Re.fullmatch unreleased_link_pattern line
  = match Str.drop_prefix "[Unreleased]: " line with
    | Some url => Some [url]
    | None => None
    end.
Proof.
  unfold unreleased_link_pattern. cbn [Re.fullmatch].
  destruct (Str.drop_prefix "[Unreleased]: " line) as [rest|]; [| reflexivity].
  now erewrite star_dot_all by reflexivity.
Qed.

(** A link line is not a heading line. *)
Lemma link_not_heading (line : string) :
  Re.matches unreleased_link_pattern line = true ->
  Re.fullmatch unreleased_heading_pattern line = None.
Proof.
  unfold Re.matches. rewrite link_pattern_prefix.
  destruct (Str.drop_prefix "[Unreleased]: " line) as [url|] eqn:E; [| discriminate].
  intros _. apply drop_prefix_Some in E. subst line. reflexivity.
Qed.

(** A star over every character, in front of [k], matches when [k] accepts
    some way of cutting the text in two. *)
Lemma star_dot_matches (k : string -> string -> option (list string))
  (taken s : string) :
  is_Some (Re.star Re.dot k taken s)
  <-> exists u v, s = u +:+ v /\ is_Some (k (taken +:+ u) v).
Proof.
  revert taken. induction s as [|c s IH]; intros taken; simpl.
  - split.
    + intros H. exists EmptyString, EmptyString. rewrite (append_nil_r taken).
      split; [reflexivity | exact H].
    + intros (u & v & E & H). destruct u; [| discriminate]. simpl in E. subst v.
      rewrite append_nil_r in H. exact H.
  - split.
    + destruct (Re.star Re.dot k (taken +:+ String c EmptyString) s) as [groups|] eqn:E.
      * intros _.
        destruct (proj1 (IH (taken +:+ String c EmptyString))) as (u & v & -> & H);
          [now rewrite E |].
        exists (String c u), v. split; [reflexivity |].
        now rewrite append_assoc in H.
      * intros H. exists EmptyString, (String c s). rewrite (append_nil_r taken).
        split; [reflexivity | exact H].
    + intros (u & v & E & H). destruct u as [|d u]; simpl in E.
      * subst v. rewrite append_nil_r in H.
        now destruct (Re.star Re.dot k (taken +:+ String c EmptyString) s).
      * injection E as <- ->.
        assert (H' : is_Some (Re.star Re.dot k (taken +:+ String c EmptyString) (u +:+ v))).
        { apply IH. exists u, v. split; [reflexivity |]. now rewrite append_assoc. }
        destruct H' as [groups ->]. eauto.
Qed.

(** A star in front of a rest that accepts everything. *)
Lemma star_total (class : ascii -> bool) (k : string -> string -> option (list string))
  (taken s : string) :
  (forall taken rest, is_Some (k taken rest)) ->
  is_Some (Re.star class k taken s).
Proof.
  intros Hk. revert taken. induction s as [|c s IH]; intros taken; simpl; [apply Hk |].
  destruct (class c); [| apply Hk].
  destruct (IH (taken +:+ String c EmptyString)) as [groups ->]. eauto.
Qed.

Lemma is_Some_capture (capture : bool) (taken : string) (m : option (list string)) :
  is_Some match m with
          | Some groups => Some (if capture then taken :: groups else groups)
          | None => None
          end
  <-> is_Some m.
Proof. destruct m; split; intros [x H]; eauto; discriminate. Qed.

Lemma fullmatch_star_dot (capture : bool) (p : list Re.piece) (s : string) :
  is_Some (Re.fullmatch (Re.Star Re.dot capture :: p) s)
  <-> exists u v, s = u +:+ v /\ is_Some (Re.fullmatch p v).
Proof.
  cbn [Re.fullmatch]. rewrite star_dot_matches.
  split; intros (u & v & E & H); exists u, v; (split; [exact E |]).
  - now apply is_Some_capture in H.
  - now apply is_Some_capture.
Qed.

Lemma fullmatch_lit (text : string) (p : list Re.piece) (s : string) :
  is_Some (Re.fullmatch (Re.Lit text :: p) s)
  <-> exists rest, s = text +:+ rest /\ is_Some (Re.fullmatch p rest).
Proof.
  cbn [Re.fullmatch]. split.
  - destruct (Str.drop_prefix text s) as [rest|] eqn:E; [| intros [x H]; discriminate].
    apply drop_prefix_Some in E. eauto.
  - intros (rest & -> & H). now rewrite drop_prefix_app.
Qed.

Lemma fullmatch_star_total (class : ascii -> bool) (capture : bool)
  (p : list Re.piece) (s : string) :
  (forall rest, is_Some (Re.fullmatch p rest)) ->
  is_Some (Re.fullmatch (Re.Star class capture :: p) s).
Proof.
  intros H. cbn [Re.fullmatch]. apply star_total.
  intros taken rest. now apply is_Some_capture.
Qed.

Lemma fullmatch_star_dot_last (capture : bool) (s : string) :
  is_Some (Re.fullmatch [Re.Star Re.dot capture] s).
Proof.
  apply fullmatch_star_dot. exists s, EmptyString.
  rewrite append_nil_r. split; [reflexivity | now exists []].
Qed.

(** The compare shape: a slash, and three dots somewhere after it. *)
Lemma compare_pattern_shape (unicode_word : ascii -> bool) (line : string) :
  Re.matches (unreleased_compare_pattern unicode_word) line = true
  <-> exists a b c, line = a +:+ "/" +:+ b +:+ "..." +:+ c.
Proof.
  transitivity (is_Some (Re.fullmatch (unreleased_compare_pattern unicode_word) line)).
  { unfold Re.matches. destruct (Re.fullmatch _ line); split; eauto; try discriminate.
    intros [x H]. discriminate. }
  unfold unreleased_compare_pattern. rewrite fullmatch_star_dot. split.
  - intros (a & v & -> & H).
    apply fullmatch_lit in H as (rest & -> & H).
    apply fullmatch_star_dot in H as (b & w & -> & H).
    apply fullmatch_lit in H as (c & -> & _).
    now exists a, b, c.
  - intros (a & b & c & ->). exists a, ("/" +:+ b +:+ "..." +:+ c).
    split; [reflexivity |].
    apply fullmatch_lit. exists (b +:+ "..." +:+ c). split; [reflexivity |].
    apply fullmatch_star_dot. exists b, ("..." +:+ c). split; [reflexivity |].
    apply fullmatch_lit. exists c. split; [reflexivity |].
    apply fullmatch_star_total. intros rest. apply fullmatch_star_dot_last.
Qed.

(** ** The promoter *)

Section PromoterFacts.

Variable unicode_word : ascii -> bool.
Variable today : string.

(** What is already in [lines] stays in front. *)
Lemma promote_lines_acc current_version new_version input lines :
  promote_lines unicode_word today current_version new_version input lines
  = let* out := promote_lines unicode_word today current_version new_version input [] in
    Ok (lines ++ out).
Proof.
  revert lines. induction input as [|line input IH]; intros lines; simpl.
  - now rewrite app_nil_r.
  - destruct (promote_line unicode_word today current_version new_version line) as [appended|e];
      simpl; [| reflexivity].
    rewrite IH. rewrite (IH appended).
    destruct (promote_lines unicode_word today current_version new_version input []); simpl;
      [now rewrite app_assoc | reflexivity].
Qed.

(** The output is the concatenation, in order, of what each line gives. *)
Lemma promote_lines_split current_version new_version before line after out :
  promote_lines unicode_word today current_version new_version (before ++ line :: after) [] = Ok out ->
  exists o1 appended o2,
    promote_line unicode_word today current_version new_version line = Ok appended
    /\ out = o1 ++ appended ++ o2.
Proof.
  revert out. induction before as [|x before IH]; intros out; simpl.
  - destruct (promote_line unicode_word today current_version new_version line) as [appended|e];
      simpl; [| discriminate].
    rewrite promote_lines_acc.
    destruct (promote_lines unicode_word today current_version new_version after []) as [o2|e];
      simpl; [| discriminate].
    intros [= <-]. now exists [], appended, o2.
  - destruct (promote_line unicode_word today current_version new_version x) as [ox|e];
      simpl; [| discriminate].
    rewrite promote_lines_acc.
    destruct (promote_lines unicode_word today current_version new_version (before ++ line :: after) [])
      as [o|e] eqn:E; simpl; [| discriminate].
    intros [= <-]. destruct (IH o eq_refl) as (o1 & appended & o2 & H1 & ->).
    exists (ox ++ o1), appended, o2. split; [exact H1 |].
    now rewrite app_assoc.
Qed.

(** With a current version at hand no line raises. *)
Lemma promote_line_total current new_version line :
  exists appended, promote_line unicode_word today (Some current) new_version line = Ok appended.
Proof.
  unfold promote_line.
  destruct (Re.fullmatch unreleased_heading_pattern line); [eauto |].
  destruct (Re.fullmatch unreleased_link_pattern line); [| eauto].
  destruct (Re.fullmatch (unreleased_compare_pattern unicode_word) line);
    simpl; eauto.
Qed.

Lemma promote_lines_total current new_version input :
  exists out, promote_lines unicode_word today (Some current) new_version input [] = Ok out.
Proof.
  induction input as [|line input [out IH]]; simpl; [eauto |].
  destruct (promote_line_total current new_version line) as [appended ->]. simpl.
  rewrite promote_lines_acc, IH. simpl. eauto.
Qed.

(** The only exception a line can raise is the [TypeError] of [replace]. *)
Lemma promote_line_raises current_version new_version line e :
  promote_line unicode_word today current_version new_version line = Raise e -> e = TypeError.
Proof.
  unfold promote_line.
  destruct (Re.fullmatch unreleased_heading_pattern line); [discriminate |].
  destruct (Re.fullmatch unreleased_link_pattern line); [| discriminate].
  destruct (Re.fullmatch (unreleased_compare_pattern unicode_word) line);
    [| discriminate].
  destruct current_version; simpl; [discriminate | congruence].
Qed.

(** C4.  A changelog with the heading line [## [Unreleased]] and the link
    line [[Unreleased]: https://x/compare/v1.0.0...HEAD], promoted from
    1.0.0 to 1.1.0: the rewritten text has the heading [## [1.1.0] - today]
    right after the Unreleased heading and a blank line, and the link
    lines [[Unreleased]: https://x/compare/v1.1.0...HEAD] and
    [[1.1.0]: https://x/compare/v1.0.0...v1.1.0] next to each other, in
    this order. *)
Theorem release_version_promotes (change_log : string) :
  let heading := "## [Unreleased]" +:+ Str.nl in
  let link := "[Unreleased]: https://x/compare/v1.0.0...HEAD" +:+ Str.nl in
  In heading (Str.readlines change_log) ->
  In link (Str.readlines change_log) ->
  exists lines,
    release_version unicode_word today (Some "1.0.0") "1.1.0" change_log = Ok (Str.writelines lines)
    /\ (exists before after,
          lines = before
                  ++ [heading; Str.nl; "## [1.1.0] - " +:+ today +:+ Str.nl]
                  ++ after)
    /\ (exists before after,
          lines = before
                  ++ ["[Unreleased]: https://x/compare/v1.1.0...HEAD" +:+ Str.nl;
                      "[1.1.0]: https://x/compare/v1.0.0...v1.1.0" +:+ Str.nl]
                  ++ after).
Proof.
  intros heading link Hheading Hlink.
  destruct (promote_lines_total "1.0.0" "1.1.0" (Str.readlines change_log))
    as [lines Hlines].
  exists lines. split; [| split].
  - unfold release_version. now rewrite Hlines.
  - apply in_split in Hheading as (l1 & l2 & E). rewrite E in Hlines.
    apply promote_lines_split in Hlines as (o1 & appended & o2 & H & ->).
    exists o1, o2. f_equal. f_equal.
    vm_compute in H. now injection H as <-.
  - apply in_split in Hlink as (l1 & l2 & E). rewrite E in Hlines.
    apply promote_lines_split in Hlines as (o1 & appended & o2 & H & ->).
    exists o1, o2. f_equal. f_equal.
    vm_compute in H. now injection H as <-.
Qed.

(** C5.  An Unreleased link line that is not of the compare shape gives
    two lines: the line itself, and the line with every [Unreleased] in it
    replaced by the new version.  The label is replaced, and the scan goes
    on in the URL: a URL without [Unreleased] in it is left as it is. *)
Theorem release_version_plain_link current_version (new_version line url : string) :
  Re.fullmatch unreleased_link_pattern line = Some [url] ->
  Re.matches (unreleased_compare_pattern unicode_word) line = false ->
  promote_line unicode_word today current_version new_version line
  = Ok [line; Str.replace "Unreleased" new_version line]
  /\ Str.replace "Unreleased" new_version line
     = "[" +:+ new_version +:+ "]: " +:+ Str.replace "Unreleased" new_version url
  /\ (Str.contains "Unreleased" url = false ->
      Str.replace "Unreleased" new_version line
      = "[" +:+ new_version +:+ "]: " +:+ url).
Proof.
  intros Hlink Hcompare.
  assert (Hheading : Re.fullmatch unreleased_heading_pattern line = None).
  { apply link_not_heading. unfold Re.matches. now rewrite Hlink. }
  assert (E : line = "[Unreleased]: " +:+ url).
  { rewrite link_pattern_prefix in Hlink.
    destruct (Str.drop_prefix "[Unreleased]: " line) as [u|] eqn:D; [| discriminate].
    injection Hlink as ->. now apply drop_prefix_Some. }
  split; [| split].
  - unfold promote_line. rewrite Hheading, Hlink.
    unfold Re.matches in Hcompare.
    now destruct (Re.fullmatch (unreleased_compare_pattern unicode_word) line).
  - rewrite E. apply replace_unreleased_link.
  - intros Habsent. rewrite E, replace_unreleased_link.
    now rewrite (replace_absent "Unreleased" new_version url).
Qed.

(** C9.  A changelog with no Unreleased heading line and no Unreleased link
    line is rewritten with the text it had, whatever the versions given,
    and nothing is raised. *)
Theorem release_version_no_unreleased current_version new_version (change_log : string) :
  Forall (fun line =>
            Re.matches unreleased_heading_pattern line = false
            /\ Re.matches unreleased_link_pattern line = false)
         (Str.readlines change_log) ->
  promote_lines unicode_word today current_version new_version (Str.readlines change_log) []
  = Ok (Str.readlines change_log)
  /\ release_version unicode_word today current_version new_version change_log = Ok change_log.
Proof.
  intros H.
  assert (E : forall input, Forall (fun line =>
            Re.matches unreleased_heading_pattern line = false
            /\ Re.matches unreleased_link_pattern line = false) input ->
          promote_lines unicode_word today current_version new_version input [] = Ok input).
  { induction 1 as [|line input [H1 H2] _ IH]; simpl; [reflexivity |].
    unfold promote_line, Re.matches in *.
    destruct (Re.fullmatch unreleased_heading_pattern line); [discriminate |].
    destruct (Re.fullmatch unreleased_link_pattern line); [discriminate |].
    simpl. rewrite promote_lines_acc, IH. reflexivity. }
  split; [now apply E |].
  unfold release_version. rewrite (E _ H). simpl.
  now rewrite writelines_readlines.
Qed.

(** C10.  Without a current version, a changelog that has an Unreleased
    link line of the compare shape is not rewritten: [release_version]
    raises the [TypeError] of [replace]. *)
Theorem release_version_no_current_version new_version (change_log : string) :
  Exists (fun line =>
            Re.matches unreleased_link_pattern line = true
            /\ Re.matches (unreleased_compare_pattern unicode_word) line = true)
         (Str.readlines change_log) ->
  release_version unicode_word today None new_version change_log = Raise TypeError.
Proof.
  intros H. unfold release_version.
  enough (E : forall lines,
             promote_lines unicode_word today None new_version (Str.readlines change_log) lines
             = Raise TypeError) by now rewrite E.
  induction H as [line input [H1 H2]|line input _ IH]; intros lines; simpl.
  - unfold promote_line.
    rewrite (link_not_heading _ H1). unfold Re.matches in H1, H2.
    destruct (Re.fullmatch unreleased_link_pattern line); [| discriminate].
    destruct (Re.fullmatch (unreleased_compare_pattern unicode_word) line);
      [| discriminate].
    reflexivity.
  - destruct (promote_line unicode_word today None new_version line) as [appended|e] eqn:E; simpl.
    + apply IH.
    + now rewrite (promote_line_raises _ _ _ _ E).
Qed.

End PromoterFacts.

Lemma release_version_promotes_witness :
  let change_log :=
    "# Changelog" +:+ Str.nl +:+ "## [Unreleased]" +:+ Str.nl
    +:+ "### Added" +:+ Str.nl +:+ "- Something new" +:+ Str.nl
    +:+ "## [1.0.0] - 2020-12-31" +:+ Str.nl
    +:+ "[Unreleased]: https://x/compare/v1.0.0...HEAD" +:+ Str.nl in
  In ("## [Unreleased]" +:+ Str.nl) (Str.readlines change_log)
  /\ In ("[Unreleased]: https://x/compare/v1.0.0...HEAD" +:+ Str.nl)
        (Str.readlines change_log)
  /\ exists lines,
      release_version (fun _ => false) "2026-11-04" (Some "1.0.0") "1.1.0" change_log
      = Ok (Str.writelines lines)
      /\ (exists before after,
            lines = before
                    ++ ["## [Unreleased]" +:+ Str.nl; Str.nl;
                        "## [1.1.0] - " +:+ "2026-11-04" +:+ Str.nl]
                    ++ after)
      /\ (exists before after,
            lines = before
                    ++ ["[Unreleased]: https://x/compare/v1.1.0...HEAD" +:+ Str.nl;
                        "[1.1.0]: https://x/compare/v1.0.0...v1.1.0" +:+ Str.nl]
                    ++ after).
Proof.
  intros change_log.
  assert (H1 : In ("## [Unreleased]" +:+ Str.nl) (Str.readlines change_log)).
  { vm_compute. tauto. }
  assert (H2 : In ("[Unreleased]: https://x/compare/v1.0.0...HEAD" +:+ Str.nl)
                  (Str.readlines change_log)).
  { vm_compute. tauto. }
  split; [exact H1 | split; [exact H2 |]].
  exact (release_version_promotes (fun _ => false) "2026-11-04" change_log H1 H2).
Defined.

Lemma release_version_plain_link_witness :
  let line := "[Unreleased]: https://x/tree/unreleased" +:+ Str.nl in
  let url := "https://x/tree/unreleased" +:+ Str.nl in
  Re.fullmatch unreleased_link_pattern line = Some [url]
  /\ Re.matches (unreleased_compare_pattern (fun _ => false)) line = false
  /\ promote_line (fun _ => false) "2026-11-04" (Some "1.0.0") "1.1.0" line
     = Ok [line; "[1.1.0]: https://x/tree/unreleased" +:+ Str.nl].
Proof.
  intros line url.
  assert (H1 : Re.fullmatch unreleased_link_pattern line = Some [url])
    by reflexivity.
  assert (H2 : Re.matches (unreleased_compare_pattern (fun _ => false)) line = false)
    by reflexivity.
  split; [exact H1 | split; [exact H2 |]].
  destruct (release_version_plain_link (fun _ => false) "2026-11-04"
              (Some "1.0.0") "1.1.0" line url H1 H2) as (Hout & _ & Hcopy).
  rewrite Hout, Hcopy; reflexivity.
Defined.

(** C5, as first stated, would leave the URL of the copy as it is in every
    case; a URL that has [Unreleased] in it is rewritten. *)
Lemma release_version_plain_link_counterexample :
  ~ (forall unicode_word today current_version new_version line url,
       Re.fullmatch unreleased_link_pattern line = Some [url] ->
       Re.matches (unreleased_compare_pattern unicode_word) line = false ->
       promote_line unicode_word today current_version new_version line
       = Ok [line; "[" +:+ new_version +:+ "]: " +:+ url]).
Proof.
  intros H.
  specialize (H (fun _ => false) "2026-11-04" (Some "1.0.0") "1.1.0"
                ("[Unreleased]: https://x/tree/Unreleased" +:+ Str.nl)
                ("https://x/tree/Unreleased" +:+ Str.nl) eq_refl eq_refl).
  vm_compute in H. discriminate H.
Qed.

Lemma release_version_no_unreleased_witness :
  let change_log :=
    "# Changelog" +:+ Str.nl +:+ "## [1.0.0] - 2020-12-31" +:+ Str.nl
    +:+ "### Added" +:+ Str.nl +:+ "- First release" +:+ Str.nl
    +:+ "[1.0.0]: https://x/releases/tag/v1.0.0" in
  Forall (fun line =>
            Re.matches unreleased_heading_pattern line = false
            /\ Re.matches unreleased_link_pattern line = false)
         (Str.readlines change_log)
  /\ release_version (fun _ => false) "2026-11-04" None "1.1.0" change_log
     = Ok change_log.
Proof.
  intros change_log.
  assert (H : Forall (fun line =>
            Re.matches unreleased_heading_pattern line = false
            /\ Re.matches unreleased_link_pattern line = false)
         (Str.readlines change_log)).
  { vm_compute. repeat constructor. }
  split; [exact H |].
  exact (proj2 (release_version_no_unreleased (fun _ => false) "2026-11-04"
                  None "1.1.0" change_log H)).
Defined.

Lemma release_version_no_current_version_witness :
  let change_log :=
    "## [Unreleased]" +:+ Str.nl
    +:+ "[Unreleased]: https://x/compare/v1.0.0...HEAD" +:+ Str.nl in
  Exists (fun line =>
            Re.matches unreleased_link_pattern line = true
            /\ Re.matches (unreleased_compare_pattern (fun _ => false)) line = true)
         (Str.readlines change_log)
  /\ release_version (fun _ => false) "2026-11-04" None "1.1.0" change_log
     = Raise TypeError.
Proof.
  intros change_log.
  assert (H : Exists (fun line =>
            Re.matches unreleased_link_pattern line = true
            /\ Re.matches (unreleased_compare_pattern (fun _ => false)) line = true)
         (Str.readlines change_log)).
  { vm_compute. apply Exists_cons_tl, Exists_cons_hd. split; reflexivity. }
  split; [exact H |].
  exact (release_version_no_current_version (fun _ => false) "2026-11-04"
           "1.1.0" change_log H).
Defined.

(** ** Version extraction *)

#[local] Arguments Ascii.eqb : simpl never.

Lemma lstrip_times (n : nat) (s : string) :
  Str.lstrip "[" (times n "[" +:+ s) = Str.lstrip "[" s.
Proof. induction n as [|n IH]; simpl; [reflexivity | exact IH]. Qed.

Lemma rstrip_app_times (m : nat) (s : string) :
  Str.rstrip "]" (s +:+ times m "]") = Str.rstrip "]" s.
Proof.
  induction s as [|d s IH]; simpl.
  - induction m as [|m IH]; simpl; [reflexivity | now rewrite IH].
  - now rewrite IH.
Qed.

Lemma lstrip_not_started (s : string) (m : nat) :
  Str.startswith s "[" = false ->
  Str.lstrip "[" (s +:+ times m "]") = s +:+ times m "]".
Proof.
  intros Hs. destruct s as [|d s]; simpl.
  - now destruct m.
  - unfold Str.startswith in Hs. simpl in Hs.
    rewrite Ascii.eqb_sym. now destruct (Ascii.eqb "[" d).
Qed.

Lemma rstrip_not_ended (s : string) :
  endswith s "]" = false -> Str.rstrip "]" s = s.
Proof.
  induction s as [|d s IH]; simpl; [reflexivity |].
  intros H. apply orb_false_iff in H as [H1 H2]. rewrite (IH H2).
  destruct s as [|e s]; [| reflexivity].
  rewrite orb_false_r. now destruct (Ascii.eqb d "]").
Qed.

(** [unlink] takes away every leading [[] and every trailing []]. *)
Lemma unlink_brackets (n m : nat) (core : string) :
  Str.startswith core "[" = false ->
  endswith core "]" = false ->
  unlink (times n "[" +:+ core +:+ times m "]") = core.
Proof.
  intros H1 H2. unfold unlink. rewrite lstrip_times.
  rewrite (lstrip_not_started core m H1).
  rewrite rstrip_app_times. now apply rstrip_not_ended.
Qed.

(** C8.  From a plain-text version token [unlink] takes away every leading
    [[] and every trailing []]: what is left of a token made of [n] opening
    brackets, a text that neither starts with [[] nor ends with []], and [m]
    closing brackets, is that text.  With [n = m = 1] this is one bracket on
    each side. *)
Theorem unlink_strips_brackets (n m : nat) (core : string) :
  Str.startswith core "[" = false ->
  endswith core "]" = false ->
  unlink (times n "[" +:+ core +:+ times m "]") = core
  /\ unlink ("[" +:+ core +:+ "]") = core.
Proof.
  intros H1 H2. split; [now apply unlink_brackets |].
  exact (unlink_brackets 1 1 core H1 H2).
Qed.

Lemma unlink_strips_brackets_witness :
  Str.startswith "1.2.3" "[" = false
  /\ endswith "1.2.3" "]" = false
  /\ unlink ("[[" +:+ "1.2.3" +:+ "]]]") = "1.2.3"
  /\ unlink ("[" +:+ "1.2.3" +:+ "]") = "1.2.3".
Proof.
  split; [reflexivity | split; [reflexivity |]].
  exact (unlink_strips_brackets 2 3 "1.2.3" eq_refl eq_refl).
Defined.

(** C8, as first stated, has exactly one bracket taken from each side, so
    that a token [[t]] would always give [t]. *)
Lemma unlink_strips_brackets_counterexample :
  ~ (forall text : string, unlink ("[" +:+ text +:+ "]") = text).
Proof.
  intros H. specialize (H "[1.2.3]"). vm_compute in H. discriminate H.
Qed.

(** C7.  The version of a release heading, written as a link and written
    plain.  The parser gives the heading [## [text](url) - date] as a link
    and a raw text, and the version is [text].  It gives the plain heading
    [## [text] - date] as one raw text, the version token and the date
    together: [add_release] returns its empty dictionary for it when
    [show_unreleased] is false and raises [IndexError] when it is true, and
    no version comes out of it, whatever the text and the date. *)
Theorem plain_version_not_extracted (render : block_token -> string)
  (text target date : string) :
  let linked := Heading 2 [Link [RawText text] target; RawText (" - " +:+ date)] in
  let plain := Heading 2 [RawText ("[" +:+ text +:+ "] - " +:+ date)] in
  (forall show_unreleased,
     release_fields (Block linked) show_unreleased = Ok (Some (text, " - " +:+ date)))
  /\ release_fields (Block plain) false = Ok None
  /\ release_fields (Block plain) true = Raise IndexError
  /\ to_dict_view render [linked] false
     = Ok (Some [(text, [("version", FStr text);
                         ("release_date", FStr (extract_date (" - " +:+ date)))])])
  /\ to_dict_view render [plain] false = Ok (Some [])
  /\ to_dict render [plain] true = Raise IndexError.
Proof.
  intros linked plain. split; [| split; [| split; [| split; [| split]]]].
  - intros show_unreleased. now destruct show_unreleased.
  - reflexivity.
  - reflexivity.
  - unfold to_dict_view, to_dict, linked.
    cbn [visit_all visit is_release Nat.eqb bind objects changes current_release
         category start].
    unfold add_release.
    change (release_fields
              (Block (Heading 2 [Link [RawText text] target; RawText (" - " +:+ date)]))
              false)
      with (Ok (A := option (string * string)) (Some (text, " - " +:+ date))).
    cbn [bind]. reflexivity.
  - reflexivity.
  - reflexivity.
Qed.

(** ** The raw reader *)

Lemma readlines_cons (c : ascii) (s : string) :
  exists line lines, Str.readlines (String c s) = line :: lines.
Proof.
  simpl. destruct (Ascii.eqb c Str.newline); [eauto |].
  destruct (Str.readlines s); eauto.
Qed.

(** No line of text is a release heading. *)
Lemma raw_visit_keeps_changes is_information (h h' : heap) (current current' : value)
  (line : string) :
  raw_visit is_information (h, current) line = Ok (h', current') ->
  current = VRef 1 ->
  h !! 0 = Some (Dict []) ->
  current' = VRef 1 /\ h' !! 0 = Some (Dict []).
Proof.
  intros H -> H0. unfold raw_visit in H. simpl in H.
  destruct (is_information _) as [[|]|e];
    simpl in H; [| now injection H as <- <- | discriminate].
  destruct (h !! 1) as [[items|entries]|]; simpl in H; try discriminate.
  destruct (match lookup_key "raw" items with Some v => v | None => VStr "" end);
    simpl in H; [| discriminate].
  injection H as <- <-. split; [reflexivity |].
  now rewrite list_lookup_insert_ne.
Qed.

Lemma raw_visit_all_keeps_changes is_information (lines : list string)
  (st st' : list object * value) :
  raw_visit_all is_information st lines = Ok st' ->
  st.2 = VRef 1 ->
  st.1 !! 0 = Some (Dict []) ->
  st'.1 !! 0 = Some (Dict []).
Proof.
  revert st. induction lines as [|line lines IH]; intros st; cbn [raw_visit_all].
  - now intros [= <-].
  - destruct (raw_visit is_information st line) as [[h1 current1]|e] eqn:E;
      cbn [bind]; [| discriminate].
    intros H Hc H0. destruct st as [h current]. simpl in Hc, H0.
    destruct (raw_visit_keeps_changes _ _ _ _ _ _ E Hc H0) as [Hc1 H1].
    exact (IH _ H Hc1 H1).
Qed.

(** C3.  [to_raw_dict] detects no release: what it returns, when it returns,
    is the empty dictionary, whatever [is_information] is.  With
    [is_information] not bound, as the module has it, every text but the
    empty one raises [NameError], a changelog of one release among them. *)
Theorem to_raw_dict_detects_nothing :
  (forall is_information change_log,
     match to_raw_dict is_information change_log with
     | Ok r => read_changelog r = Some []
     | Raise _ => True
     end)
  /\ (forall c change_log, to_raw_dict unbound (String c change_log) = Raise NameError)
  /\ to_raw_dict unbound
       ("## [1.0.0] - 2020-12-31" +:+ Str.nl +:+ "### Added" +:+ Str.nl
        +:+ "- First release" +:+ Str.nl)
     = Raise NameError.
Proof.
  split; [| split].
  - intros is_information change_log. unfold to_raw_dict.
    destruct (raw_visit_all is_information ([Dict []; Dict []], VRef 1)
                (Str.readlines change_log)) as [[h current]|e] eqn:E; simpl; [| exact I].
    pose proof (raw_visit_all_keeps_changes _ _ _ _ E eq_refl eq_refl) as H0.
    unfold read_changelog. simpl in *. now rewrite H0.
  - intros c change_log. unfold to_raw_dict.
    destruct (readlines_cons c change_log) as (line & lines & ->). reflexivity.
  - reflexivity.
Qed.

(** ** The reader *)

(** C2.  A release heading with one inline child, [## [Unreleased]] as raw
    text or as a link: with [show_unreleased] false the reader returns the
    empty dictionary; with [show_unreleased] true it raises [IndexError] on
    reading the second child, whatever follows in the document. *)
Theorem to_dict_dateless_unreleased (render : block_token -> string)
  (target : string) (rest : list block_token) :
  let title := Heading 1 [RawText "Changelog"] in
  let plain := Heading 2 [RawText "[Unreleased]"] in
  let linked := Heading 2 [Link [RawText "Unreleased"] target] in
  to_dict_view render [title; plain] false = Ok (Some [])
  /\ to_dict_view render [title; linked] false = Ok (Some [])
  /\ to_dict render (title :: plain :: rest) true = Raise IndexError
  /\ to_dict render (title :: linked :: rest) true = Raise IndexError.
Proof. repeat split; reflexivity. Qed.

(** The lists on the heap stay empty: a list is appended to only when it is
    true, that is when it already has an entry. *)
Lemma append_entries_lists_empty render (h h' : heap) (category : value)
  (entries : list block_token) :
  lists_empty h ->
  truthy h category = true ->
  append_entries render h category entries = Ok h' ->
  h' = h.
Proof.
  intros Hempty Htrue. destruct entries as [|entry entries]; simpl.
  - now intros [= <-].
  - unfold append. destruct category as [s|a]; simpl; [discriminate |].
    simpl in Htrue. destruct (h !! a) as [[items|items]|] eqn:E; simpl; try discriminate.
    unfold lists_empty in Hempty. rewrite Forall_lookup in Hempty.
    specialize (Hempty _ _ E). simpl in Hempty. subst items. discriminate.
Qed.

Lemma lists_empty_alloc (h : heap) (o : object) :
  lists_empty h ->
  match o with PyList entries => entries = [] | Dict _ => True end ->
  lists_empty (h ++ [o]).
Proof. intros H Ho. apply Forall_app. split; [exact H | now constructor]. Qed.

Lemma lists_empty_insert_dict (h : heap) (a : nat) (items : list (string * value)) :
  lists_empty h -> lists_empty (<[a := Dict items]> h).
Proof. intros H. now apply Forall_insert. Qed.

Lemma setdefault_lists_empty (h h' : heap) (d v : value) (key : string) (o : object) :
  lists_empty h ->
  match o with PyList entries => entries = [] | Dict _ => True end ->
  setdefault h d key o = Ok (h', v) ->
  lists_empty h'.
Proof.
  intros H Ho. unfold setdefault.
  destruct d as [s|a]; [discriminate |].
  destruct (h !! a) as [[items|entries]|]; try discriminate.
  destruct (lookup_key key items).
  - now intros [= <- <-].
  - simpl. intros [= <- <-].
    now apply lists_empty_insert_dict, lists_empty_alloc.
Qed.

Lemma visit_lists_empty render show_unreleased (f f' : frame)
  (block : block_token) :
  lists_empty (objects f) ->
  visit render show_unreleased f block = Ok f' ->
  lists_empty (objects f').
Proof.
  intros H. unfold visit.
  destruct (is_release (Block block)).
  { unfold add_release.
    destruct (release_fields (Block block) show_unreleased) as [[[version date]|]|e];
      simpl; [| | discriminate].
    - destruct (setdefault _ _ _ _) as [[h v]|e] eqn:E; simpl; [| discriminate].
      intros [= <-]. simpl. eapply setdefault_lists_empty; [exact H | | exact E]. exact I.
    - intros [= <-]. simpl. now apply lists_empty_alloc. }
  destruct (is_category (Block block)).
  { unfold add_category.
    destruct (heading_children (Block block)) as [children|e]; simpl; [| discriminate].
    destruct (item children 0) as [token|e]; simpl; [| discriminate].
    destruct (content_of token) as [name|e]; simpl; [| discriminate].
    destruct (setdefault _ _ _ _) as [[h v]|e] eqn:E; simpl; [| discriminate].
    intros [= <-]. simpl. eapply setdefault_lists_empty; [exact H | | exact E].
    reflexivity. }
  destruct (is_list (Block block)); simpl; [| now intros [= <-]].
  destruct (truthy _ (current_release f)); simpl; [| now intros [= <-]].
  destruct (truthy _ (category f)) eqn:T; simpl; [| now intros [= <-]].
  unfold add_change_list.
  destruct block; try discriminate.
  destruct (append_entries _ _ _ _) as [h|e] eqn:E; simpl; [| discriminate].
  intros [= <-]. simpl. now rewrite (append_entries_lists_empty _ _ _ _ _ H T E).
Qed.

Lemma visit_all_lists_empty render show_unreleased (sections : list block_token)
  (f f' : frame) :
  lists_empty (objects f) ->
  visit_all render show_unreleased f sections = Ok f' ->
  lists_empty (objects f').
Proof.
  revert f. induction sections as [|block sections IH]; intros f H; simpl.
  - now intros [= <-].
  - destruct (visit render show_unreleased f block) as [f1|e] eqn:E; simpl;
      [| discriminate].
    apply IH. exact (visit_lists_empty _ _ _ _ _ H E).
Qed.

(** C1.  A release heading, a category heading and a list: the reader
    returns the release with the category, and the category has no entry,
    whatever the list holds.  In no document does a list of the result get
    an entry. *)
Theorem to_dict_leaves_categories_empty (render : block_token -> string) :
  (forall target entries show_unreleased,
     to_dict_view render
       [Heading 2 [Link [RawText "1.0.0"] target; RawText " - 2020-12-31"];
        Heading 3 [RawText "Added"];
        List entries] show_unreleased
     = Ok (Some [("1.0.0", [("version", FStr "1.0.0");
                            ("release_date", FStr "2020-12-31");
                            ("Added", FList [])])]))
  /\ (forall parsed_changelog show_unreleased,
        match to_dict render parsed_changelog show_unreleased with
        | Ok r => lists_empty r.1
        | Raise _ => True
        end).
Proof.
  split.
  - intros target entries show_unreleased. now destruct show_unreleased.
  - intros parsed_changelog show_unreleased. unfold to_dict.
    destruct (visit_all render show_unreleased (start) parsed_changelog)
      as [f|e] eqn:E; simpl; [| exact I].
    eapply visit_all_lists_empty; [| exact E].
    repeat constructor.
Qed.

(** ** Registering releases *)

Lemma lookup_key_None {V : Type} (key : string) (items : list (string * V)) :
  lookup_key key items = None <-> key ∉ items.*1.
Proof.
  induction items as [|[k v] items IH]; simpl.
  - split; [intros _; apply not_elem_of_nil | reflexivity].
  - rewrite not_elem_of_cons. destruct (String.eqb k key) eqn:E.
    + apply String.eqb_eq in E. subst k. split; [discriminate | tauto].
    + apply String.eqb_neq in E. rewrite IH.
      split; [intros H; split; [congruence | exact H] | tauto].
Qed.

Lemma lookup_key_app {V : Type} (key : string) (items extra : list (string * V)) :
  lookup_key key (items ++ extra)
  = match lookup_key key items with
    | Some v => Some v
    | None => lookup_key key extra
    end.
Proof.
  induction items as [|[k v] items IH]; simpl; [reflexivity |].
  now destruct (String.eqb k key).
Qed.

Lemma lookup_key_elem {V : Type} (key : string) (v : V) (items : list (string * V)) :
  NoDup items.*1 -> (key, v) ∈ items -> lookup_key key items = Some v.
Proof.
  induction items as [|[k w] items IH]; simpl; intros Hnd Hin.
  - now apply elem_of_nil in Hin.
  - apply NoDup_cons in Hnd as [Hk Hnd]. apply elem_of_cons in Hin as [E|Hin].
    + injection E as <- <-. now rewrite String.eqb_refl.
    + destruct (String.eqb k key) eqn:E; [| now apply IH].
      apply String.eqb_eq in E. subst k. exfalso. apply Hk.
      apply list_elem_of_fmap. now exists (key, v).
Qed.

Lemma register_blocks show_unreleased (parsed_changelog : list block_token) reg :
  fold_left (register_block show_unreleased) parsed_changelog reg
  = fold_left register (registered show_unreleased parsed_changelog) reg.
Proof.
  revert reg. induction parsed_changelog as [|block blocks IH]; intros reg;
    [reflexivity |].
  unfold registered in *. simpl. unfold register_block at 2.
  destruct (registers show_unreleased block); simpl; apply IH.
Qed.

Lemma register_lookup (key : string) (entries reg : list (string * string)) :
  lookup_key key (fold_left register entries reg)
  = match lookup_key key reg with
    | Some date => Some date
    | None => lookup_key key entries
    end.
Proof.
  revert reg. induction entries as [|[k d] entries IH]; intros reg; simpl.
  - now destruct (lookup_key key reg).
  - rewrite IH. unfold register. simpl.
    destruct (lookup_key k reg) as [d'|] eqn:Ek.
    + destruct (lookup_key key reg) eqn:E; [reflexivity |].
      destruct (String.eqb k key) eqn:Ekk; [| reflexivity].
      apply String.eqb_eq in Ekk. congruence.
    + rewrite lookup_key_app. simpl.
      now destruct (lookup_key key reg), (String.eqb k key).
Qed.

Lemma filter_first_occurrence (seen : list string) (k : string) (l : list string) :
  filter (fun k' => k' ∉ seen ++ [k]) l
  = filter (fun k' => k' ∉ seen) (filter (fun k' => k' <> k) l).
Proof.
  rewrite list_filter_filter. apply list_filter_iff. intros x.
  rewrite not_elem_of_app, not_elem_of_cons.
  pose proof (not_elem_of_nil x). tauto.
Qed.

Lemma filter_seen (seen : list string) (k : string) (l : list string) :
  k ∈ seen ->
  filter (fun k' => k' ∉ seen) (filter (fun k' => k' <> k) l)
  = filter (fun k' => k' ∉ seen) l.
Proof.
  intros Hk. rewrite list_filter_filter. apply list_filter_iff. intros x.
  split; [tauto |]. intros Hx. split; [exact Hx | intros ->; exact (Hx Hk)].
Qed.

Lemma register_keys (entries reg : list (string * string)) :
  (fold_left register entries reg).*1
  = reg.*1 ++ filter (fun k => k ∉ reg.*1) (first_occurrences entries.*1).
Proof.
  revert reg. induction entries as [|[k d] entries IH]; intros reg; simpl.
  - now rewrite filter_nil, app_nil_r.
  - rewrite IH. unfold register. simpl.
    destruct (lookup_key k reg) as [d'|] eqn:Ek.
    + assert (Hk : k ∈ reg.*1).
      { destruct (decide (k ∈ reg.*1)) as [|Hn]; [assumption |].
        apply lookup_key_None in Hn. congruence. }
      rewrite filter_cons_False by tauto. now rewrite filter_seen.
    + apply lookup_key_None in Ek.
      rewrite filter_cons_True by assumption.
      rewrite fmap_app. simpl. rewrite <- app_assoc. simpl.
      now rewrite filter_first_occurrence.
Qed.

Lemma first_occurrences_NoDup (keys : list string) : NoDup (first_occurrences keys).
Proof.
  induction keys as [|k keys IH]; simpl; [constructor |].
  apply NoDup_cons. split.
  - rewrite list_elem_of_filter. tauto.
  - now apply NoDup_filter.
Qed.

(** ** The heap under the reader *)

Lemma grows_refl (h : heap) : grows h h.
Proof.
  intros a [items|entries] H; [| eauto].
  intros _. exists []. now rewrite app_nil_r.
Qed.

Lemma field_ok_grows (h h' : heap) (v : value) :
  grows h h' -> field_ok h v -> field_ok h' v.
Proof.
  intros Hg. destruct v as [s|b]; simpl; [tauto |].
  intros [entries H]. exact (Hg _ _ H).
Qed.

Lemma grows_trans (h1 h2 h3 : heap) : grows h1 h2 -> grows h2 h3 -> grows h1 h3.
Proof.
  intros H12 H23 a o H. specialize (H12 a o H). destruct o as [items|entries].
  - intros Ha. destruct (H12 Ha) as (extra & H2 & Hextra).
    destruct (H23 _ _ H2 Ha) as (extra' & H3 & Hextra').
    exists (extra ++ extra'). rewrite app_assoc. split; [exact H3 |].
    apply Forall_app. split; [| exact Hextra'].
    eapply Forall_impl; [exact Hextra |]. intros f. now apply field_ok_grows.
  - destruct H12 as [entries' H2]. exact (H23 _ _ H2).
Qed.

Lemma grows_alloc (h : heap) (o : object) : grows h (h ++ [o]).
Proof.
  intros a o' H. pose proof (lookup_app_l_Some _ [o] _ _ H) as H'.
  destruct o' as [items|entries]; [| eauto].
  intros _. exists []. now rewrite app_nil_r.
Qed.

(** A dictionary gets one more item, whose value is a new object. *)
Lemma grows_insert_new (h : heap) (a : nat) (items : list (string * value))
  (key : string) (o : object) :
  h !! a = Some (Dict items) ->
  (a <> 0 -> exists entries, o = PyList entries) ->
  grows h (<[a := Dict (items ++ [(key, VRef (length h))])]> (h ++ [o])).
Proof.
  intros Ha Ho x ox Hx.
  assert (Hlt : a < length h) by (eapply lookup_lt_Some; exact Ha).
  destruct (decide (x = a)) as [->|Hne].
  - rewrite Ha in Hx. injection Hx as <-. intros Ha0.
    exists [(key, VRef (length h))]. split.
    + apply list_lookup_insert_eq. rewrite length_app. simpl. lia.
    + constructor; [| constructor]. simpl. destruct (Ho Ha0) as [entries ->].
      exists entries. rewrite list_lookup_insert_ne by lia.
      now rewrite lookup_app_r, Nat.sub_diag by lia.
  - assert (Hx' : <[a := Dict (items ++ [(key, VRef (length h))])]> (h ++ [o]) !! x
                  = Some ox).
    { rewrite list_lookup_insert_ne by congruence. now apply lookup_app_l_Some. }
    destruct ox as [items'|entries]; [| eauto].
    intros _. exists []. now rewrite app_nil_r.
Qed.

Lemma setdefault_grows (h h' : heap) (d v : value) (key : string) (o : object) :
  setdefault h d key o = Ok (h', v) ->
  (d <> VRef 0 -> exists entries, o = PyList entries) ->
  grows h h'.
Proof.
  unfold setdefault. destruct d as [s|a]; [discriminate |].
  destruct (h !! a) as [[items|entries]|] eqn:Ha; try discriminate.
  destruct (lookup_key key items).
  - intros [= <- <-] _. apply grows_refl.
  - simpl. intros [= <- <-] Ho. apply grows_insert_new; [exact Ha |].
    intros Ha0. apply Ho. congruence.
Qed.

(** [setdefault] on a dictionary other than [changes] leaves [changes]
    alone. *)
Lemma setdefault_other (h h' : heap) (a : nat) (v : value) (key : string) (o : object) :
  setdefault h (VRef a) key o = Ok (h', v) ->
  a <> 0 ->
  h' !! 0 = h !! 0.
Proof.
  unfold setdefault.
  destruct (h !! a) as [[items|entries]|] eqn:Ha; try discriminate.
  destruct (lookup_key key items).
  - now intros [= <- <-].
  - simpl. intros [= <- <-] Ha0. rewrite list_lookup_insert_ne by assumption.
    apply lookup_app_l. apply lookup_lt_Some in Ha. lia.
Qed.

Lemma append_grows (h h' : heap) (l : value) (x : string) :
  append h l x = Ok h' ->
  grows h h' /\ forall items, h !! 0 = Some (Dict items) -> h' !! 0 = Some (Dict items).
Proof.
  unfold append. destruct l as [s|b]; [discriminate |].
  destruct (h !! b) as [[items|entries]|] eqn:Hb; try discriminate.
  intros [= <-]. split.
  - intros a o Ha. destruct (decide (a = b)) as [->|Hne].
    + rewrite Hb in Ha. injection Ha as <-.
      eexists. apply list_lookup_insert_eq. eapply lookup_lt_Some. exact Hb.
    + assert (Ha' : <[b := PyList (entries ++ [x])]> h !! a = Some o)
        by now rewrite list_lookup_insert_ne.
      destruct o as [items'|entries']; [| eauto].
      intros _. exists []. now rewrite app_nil_r.
  - intros items H0. rewrite list_lookup_insert_ne; [exact H0 |].
    intros ->. congruence.
Qed.

Lemma append_entries_grows render (entries : list block_token) (h h' : heap)
  (l : value) :
  append_entries render h l entries = Ok h' ->
  grows h h' /\ forall items, h !! 0 = Some (Dict items) -> h' !! 0 = Some (Dict items).
Proof.
  revert h. induction entries as [|entry entries IH]; intros h; simpl.
  - intros [= <-]. split; [apply grows_refl | tauto].
  - destruct (append h l (extract_change_entry render entry)) as [h1|e] eqn:E;
      simpl; [| discriminate].
    intros H. destruct (append_grows _ _ _ _ E) as [G1 Z1].
    destruct (IH _ H) as [G2 Z2].
    split; [exact (grows_trans _ _ _ G1 G2) | auto].
Qed.

Lemma release_ok_grows (h h' : heap) entry kv :
  grows h h' -> release_ok h entry kv -> release_ok h' entry kv.
Proof.
  intros Hg (Hk & a & fields & Hv & Ha0 & Ha & Hversion & Hdate & Hfields).
  split; [exact Hk |].
  destruct (Hg _ _ Ha Ha0) as (extra & Ha' & Hextra).
  exists a, (fields ++ extra). repeat split; try assumption.
  - now rewrite lookup_key_app, Hversion.
  - now rewrite lookup_key_app, Hdate.
  - apply Forall_app. split; [| exact Hextra].
    eapply Forall_impl; [exact Hfields |]. intros f. now apply field_ok_grows.
Qed.

(** The releases of [changes] are looked up by the keys of [reg]. *)
Lemma release_ok_lookup (h : heap) reg items (key : string) :
  Forall2 (release_ok h) reg items ->
  match lookup_key key items with
  | Some v => (exists a, v = VRef a /\ a <> 0) /\ is_Some (lookup_key key reg)
  | None => lookup_key key reg = None
  end.
Proof.
  induction 1 as [|[k d] [k' v] reg items Hok _ IH]; simpl; [reflexivity |].
  destruct Hok as (Hk & a & fields & Hv & Ha0 & _). simpl in Hk, Hv. subst k' v.
  destruct (String.eqb k key); [| exact IH].
  split; [exists a; tauto | eauto].
Qed.

Lemma reader_inv_grows reg (h h' : heap) (release cat : value) items :
  Forall2 (release_ok h) reg items ->
  grows h h' ->
  h' !! 0 = Some (Dict items) ->
  release <> VRef 0 ->
  reader_inv reg (Frame h' (VRef 0) release cat).
Proof.
  intros Hreg Hg H0 Hrelease. split; [reflexivity | split; [exact Hrelease |]].
  exists items. split; [exact H0 |]. simpl.
  eapply Forall2_impl; [exact Hreg |]. intros entry kv. now apply release_ok_grows.
Qed.

(** One turn of the loop keeps the invariant, with the block registered. *)
Lemma visit_inv render show_unreleased reg (f f' : frame) (block : block_token) :
  reader_inv reg f ->
  visit render show_unreleased f block = Ok f' ->
  reader_inv (register_block show_unreleased reg block) f'.
Proof.
  intros Hinv. pose proof Hinv as (Hc & Hcur & items & H0 & Hreg).
  destruct f as [h c release cat]. simpl in Hc, Hcur, H0, Hreg. subst c.
  assert (Hlen : 0 < length h) by (eapply lookup_lt_Some; exact H0).
  unfold visit, register_block, registers. cbn [objects changes current_release category].
  destruct (is_release (Block block)).
  { unfold add_release.
    destruct (release_fields (Block block) show_unreleased) as [[[version date]|]|e];
      cbn [bind]; [| | discriminate].
    - unfold setdefault. rewrite H0.
      pose proof (release_ok_lookup _ _ _ version Hreg) as Hl.
      unfold register. cbn [fst snd].
      destruct (lookup_key version items) as [v|] eqn:El.
      + destruct Hl as [(a & -> & Ha0) [d Hd]]. rewrite Hd. cbn [bind].
        intros [= <-].
        apply reader_inv_grows with (h := h) (items := items);
          [exact Hreg | apply grows_refl | exact H0 | congruence].
      + rewrite Hl. cbn [alloc bind]. intros [= <-].
        split; [reflexivity | split; [simpl; intros [= E]; lia |]].
        exists (items ++ [(version, VRef (length h))]). simpl. split.
        { apply list_lookup_insert_eq. rewrite length_app. simpl. lia. }
        apply Forall2_app.
        * eapply Forall2_impl; [exact Hreg |]. intros entry kv.
          apply release_ok_grows. apply grows_insert_new; [exact H0 | tauto].
        * constructor; [| constructor]. split; [reflexivity |].
          eexists (length h), _. simpl.
          split; [reflexivity | split; [lia | split]].
          { rewrite list_lookup_insert_ne by lia.
            rewrite lookup_app_r, Nat.sub_diag by lia. reflexivity. }
          split; [reflexivity | split; [reflexivity |]].
          repeat constructor.
    - cbn [alloc bind]. intros [= <-].
      apply reader_inv_grows with (h := h) (items := items);
        [exact Hreg | apply grows_alloc | now apply lookup_app_l_Some |].
      intros [= E]. lia. }
  destruct (is_category (Block block)).
  { unfold add_category.
    destruct (heading_children (Block block)) as [children|e]; cbn [bind];
      [| discriminate].
    destruct (item children 0) as [token|e]; cbn [bind]; [| discriminate].
    destruct (content_of token) as [name|e]; cbn [bind]; [| discriminate].
    destruct (setdefault h release name (PyList [])) as [[h1 v]|e] eqn:E; cbn [bind];
      [| discriminate].
    intros [= <-].
    apply reader_inv_grows with (h := h) (items := items); try assumption.
    - eapply setdefault_grows; [exact E | eauto].
    - destruct release as [s|a]; [discriminate |].
      rewrite (setdefault_other _ _ _ _ _ _ E); [exact H0 | congruence]. }
  destruct (is_list (Block block) && truthy h release && truthy h cat);
    [| now intros [= <-]].
  unfold add_change_list. destruct block; try discriminate.
  destruct (append_entries render h cat children) as [h1|e] eqn:E; cbn [bind];
    [| discriminate].
  intros [= <-]. destruct (append_entries_grows _ _ _ _ _ E) as [G Z].
  apply reader_inv_grows with (h := h) (items := items); auto.
Qed.

Lemma visit_all_inv render show_unreleased (sections : list block_token)
  reg (f f' : frame) :
  reader_inv reg f ->
  visit_all render show_unreleased f sections = Ok f' ->
  reader_inv (fold_left (register_block show_unreleased) sections reg) f'.
Proof.
  revert reg f. induction sections as [|block sections IH]; intros reg f H; simpl.
  - now intros [= <-].
  - destruct (visit render show_unreleased f block) as [f1|e] eqn:E; simpl;
      [| discriminate].
    apply IH. exact (visit_inv _ _ _ _ _ _ H E).
Qed.

Lemma start_inv : reader_inv [] start.
Proof.
  split; [reflexivity | split; [discriminate |]].
  exists []. split; [reflexivity | constructor].
Qed.

(** ** Reading the result *)

Lemma read_fields_ok (h : heap) (fields : list (string * value)) :
  Forall (fun f => field_ok h f.2) fields ->
  exists r,
    read_items (read_field h) fields = Some r
    /\ forall key s, lookup_key key fields = Some (VStr s) ->
                     lookup_key key r = Some (FStr s).
Proof.
  unfold read_items.
  induction 1 as [|[k v] fields Hv _ (r & Hr & Hlookup)].
  - exists []. split; [reflexivity | discriminate].
  - assert (Hread : exists x, read_field h v = Some x
                              /\ forall s, v = VStr s -> x = FStr s).
    { destruct v as [s|b]; simpl in *.
      - exists (FStr s). split; [reflexivity | congruence].
      - destruct Hv as [entries ->]. eexists. split; [reflexivity | discriminate]. }
    destruct Hread as (x & Hx & Hs).
    exists ((k, x) :: r). split.
    + cbn [mapM fst snd]. rewrite Hx, Hr. reflexivity.
    + intros key s. simpl. destruct (String.eqb k key); [| apply Hlookup].
      intros [= ->]. now rewrite (Hs s).
Qed.

Lemma read_release_ok (h : heap) entry kv :
  release_ok h entry kv ->
  exists r,
    read_release h kv.2 = Some r
    /\ lookup_key "version" r = Some (FStr entry.1)
    /\ lookup_key "release_date" r = Some (FStr entry.2).
Proof.
  intros (_ & a & fields & -> & _ & Ha & Hversion & Hdate & Hfields).
  destruct (read_fields_ok h fields Hfields) as (r & Hr & Hlookup).
  exists r. simpl. rewrite Ha. auto.
Qed.

Lemma read_changes_ok (h : heap) reg items :
  Forall2 (release_ok h) reg items ->
  exists c,
    read_items (read_release h) items = Some c /\ Forall2 release_read reg c.
Proof.
  unfold read_items.
  induction 1 as [|entry [k v] reg items Hok _ (c & Hc & Hall)].
  - exists []. split; [reflexivity | constructor].
  - destruct (read_release_ok h entry (k, v) Hok) as (r & Hr & Hversion & Hdate).
    exists ((k, r) :: c). split.
    + cbn [mapM fst snd] in *. rewrite Hr, Hc. reflexivity.
    + constructor; [| exact Hall]. split; [apply Hok | split; assumption].
Qed.

Lemma release_read_keys reg c : Forall2 release_read reg c -> c.*1 = reg.*1.
Proof.
  induction 1 as [|entry kr reg c (Hk & _) _ IH]; [reflexivity |].
  rewrite !fmap_cons. now rewrite Hk, IH.
Qed.

Lemma filter_not_in_nil (l : list string) : filter (fun k => k ∉ []) l = l.
Proof.
  induction l as [|k l IH]; [reflexivity |].
  rewrite filter_cons_True by apply not_elem_of_nil. now rewrite IH.
Qed.

(** A version that is already a key of [changes]: [add_release] gives back
    the release that is there and changes nothing. *)
Lemma add_release_existing (h : heap) (a : nat) (items : list (string * value))
  (section : pyobj) (show_unreleased : bool) (version date : string) (v : value) :
  h !! a = Some (Dict items) ->
  release_fields section show_unreleased = Ok (Some (version, date)) ->
  lookup_key version items = Some v ->
  add_release h (VRef a) section show_unreleased = Ok (h, v).
Proof.
  intros Ha Hfields Hv. unfold add_release, setdefault.
  rewrite Hfields. cbn [bind]. now rewrite Ha, Hv.
Qed.

(** C6.  In the dictionary that [to_dict] returns the keys are distinct;
    they are the versions of the release headings that register, in the
    order of their first such heading; and the release under a key holds
    that version and the date of the first heading that registered it. *)
Theorem to_dict_releases (render : block_token -> string)
  (parsed_changelog : list block_token) (show_unreleased : bool)
  (r : list object * value) :
  to_dict render parsed_changelog show_unreleased = Ok r ->
  exists c,
    read_changelog r = Some c
    /\ NoDup c.*1
    /\ c.*1 = first_occurrences (registered show_unreleased parsed_changelog).*1
    /\ forall version release,
        (version, release) ∈ c ->
        lookup_key "version" release = Some (FStr version)
        /\ exists date,
            lookup_key version (registered show_unreleased parsed_changelog) = Some date
            /\ lookup_key "release_date" release = Some (FStr date).
Proof.
  unfold to_dict.
  destruct (visit_all render show_unreleased start parsed_changelog) as [f|e] eqn:E;
    cbn [bind]; [| discriminate].
  intros [= <-].
  pose proof (visit_all_inv _ _ _ _ _ _ start_inv E) as (Hc & _ & items & H0 & Hreg).
  rewrite register_blocks in Hreg.
  set (entries := registered show_unreleased parsed_changelog) in *.
  destruct (read_changes_ok _ _ _ Hreg) as (c & Hread & Hall).
  pose proof (release_read_keys _ _ Hall) as Hkeys.
  rewrite register_keys in Hkeys. simpl in Hkeys. rewrite filter_not_in_nil in Hkeys.
  exists c. split; [| split; [| split]].
  - unfold read_changelog. simpl. now rewrite Hc, H0.
  - rewrite Hkeys. apply first_occurrences_NoDup.
  - exact Hkeys.
  - intros version release Hin.
    apply list_elem_of_lookup in Hin as [i Hi].
    destruct (Forall2_lookup_r _ _ _ _ _ Hall Hi) as ([k date] & Hentry & Hk & Hv & Hd).
    simpl in Hk, Hv, Hd. subst k. split; [exact Hv |].
    exists date. split; [| exact Hd].
    assert (Hl : lookup_key version (fold_left register entries []) = Some date).
    { apply lookup_key_elem.
      - rewrite register_keys. simpl. rewrite filter_not_in_nil.
        apply first_occurrences_NoDup.
      - apply list_elem_of_lookup. eauto. }
    now rewrite register_lookup in Hl.
Qed.

Lemma to_dict_releases_witness :
  let parsed_changelog :=
    [Heading 1 [RawText "Changelog"];
     Heading 2 [Link [RawText "Unreleased"] "https://x/compare/v1.0.0...HEAD"];
     Heading 2 [Link [RawText "1.0.0"] "https://x/v1.0.0"; RawText " - 2020-12-31"];
     Heading 3 [RawText "Added"];
     List [ListItem [Paragraph [RawText "First release"]]];
     Heading 2 [Link [RawText "0.9.0"] "https://x/v0.9.0"; RawText " - 2019-12-31"];
     Heading 2 [RawText "[1.0.0]"; RawText " (2018-12-31)"];
     Heading 3 [RawText "Fixed"]] in
  exists r,
    to_dict (fun _ => "First release") parsed_changelog false = Ok r
    /\ exists c,
        read_changelog r = Some c
        /\ NoDup c.*1
        /\ c.*1 = first_occurrences (registered false parsed_changelog).*1
        /\ forall version release,
            (version, release) ∈ c ->
            lookup_key "version" release = Some (FStr version)
            /\ exists date,
                lookup_key version (registered false parsed_changelog) = Some date
                /\ lookup_key "release_date" release = Some (FStr date).
Proof.
  intros parsed_changelog. eexists. split; [reflexivity |].
  apply (to_dict_releases (fun _ => "First release") parsed_changelog false).
  reflexivity.
Defined.

(** * Further properties *)

(** ** Stripping *)

Lemma lstrip_length (chars s : string) :
  String.length (Str.lstrip chars s) <= String.length s.
Proof.
  induction s as [|c s IH]; simpl; [lia |].
  destruct (Str.mem c chars); simpl; lia.
Qed.

(** A text that [lstrip] leaves as it is does not start with a character of
    the set. *)
Lemma lstrip_fixed_head (chars : string) (c : ascii) (s : string) :
  Str.lstrip chars (String c s) = String c s -> Str.mem c chars = false.
Proof.
  simpl. destruct (Str.mem c chars); [| reflexivity].
  intros H. pose proof (lstrip_length chars s) as Hlen.
  rewrite H in Hlen. simpl in Hlen. lia.
Qed.

Lemma lstrip_app_all (chars pre s : string) :
  all_in chars pre = true -> Str.lstrip chars (pre +:+ s) = Str.lstrip chars s.
Proof.
  induction pre as [|c pre IH]; simpl; [reflexivity |].
  intros H. apply andb_true_iff in H as [-> H]. now apply IH.
Qed.

Lemma lstrip_all_in (chars other s : string) :
  all_in other s = true -> all_in other (Str.lstrip chars s) = true.
Proof.
  induction s as [|c s IH]; simpl; [reflexivity |].
  intros H. destruct (Str.mem c chars); [| exact H].
  apply andb_true_iff in H as [_ H]. now apply IH.
Qed.

Lemma rstrip_all_in (chars s : string) :
  all_in chars s = true -> Str.rstrip chars s = EmptyString.
Proof.
  induction s as [|c s IH]; simpl; [reflexivity |].
  intros H. apply andb_true_iff in H as [Hc H]. now rewrite (IH H), Hc.
Qed.

Lemma rstrip_app_all (chars s post : string) :
  all_in chars post = true -> Str.rstrip chars (s +:+ post) = Str.rstrip chars s.
Proof.
  intros H. induction s as [|c s IH]; simpl; [now apply rstrip_all_in |].
  now rewrite IH.
Qed.

Lemma rstrip_idempotent (chars s : string) :
  Str.rstrip chars (Str.rstrip chars s) = Str.rstrip chars s.
Proof.
  induction s as [|c s IH]; simpl; [reflexivity |].
  destruct (Str.rstrip chars s) as [|d r] eqn:E.
  - destruct (Str.mem c chars) eqn:Ec; simpl; [reflexivity | now rewrite Ec].
  - simpl in IH |- *. now rewrite IH.
Qed.

(** [rstrip] keeps the first character of what it leaves. *)
Lemma rstrip_head (chars s : string) (c : ascii) (r : string) :
  Str.rstrip chars s = String c r -> exists s', s = String c s'.
Proof.
  destruct s as [|d s]; simpl; [discriminate |].
  destruct (Str.rstrip chars s); [destruct (Str.mem d chars) |];
    intros [= <- _] || discriminate; eauto.
Qed.

Lemma lstrip_head (chars s : string) (c : ascii) (r : string) :
  Str.lstrip chars s = String c r -> Str.mem c chars = false.
Proof.
  induction s as [|d s IH]; simpl; [discriminate |].
  destruct (Str.mem d chars) eqn:E; [exact IH |].
  now intros [= <- _].
Qed.

(** Stripping on the left and then on the right, done twice, is done once. *)
Lemma strip_idempotent (left right s : string) :
  let once := Str.rstrip right (Str.lstrip left s) in
  Str.rstrip right (Str.lstrip left once) = once.
Proof.
  intros once. assert (H : Str.lstrip left once = once).
  { subst once. destruct (Str.rstrip right (Str.lstrip left s)) as [|c r] eqn:E;
      [reflexivity |].
    destruct (rstrip_head _ _ _ _ E) as [s' Hs'].
    apply lstrip_head in Hs'. simpl. now rewrite Hs'. }
  rewrite H. apply rstrip_idempotent.
Qed.

(** X1.  [extract_date] gives the date that is inside: from a text made of
    characters of [ -(], a date that neither starts with one of them nor
    ends with a space or a closing parenthesis, and characters of [ )], it
    gives that date. *)
Theorem extract_date_inside (pre date post : string) :
  all_in " -(" pre = true ->
  all_in " )" post = true ->
  Str.lstrip " -(" date = date ->
  Str.rstrip " )" date = date ->
  extract_date (pre +:+ date +:+ post) = date.
Proof.
  intros Hpre Hpost Hl Hr.
  assert (E : Str.rstrip " )" (Str.lstrip " -(" (pre +:+ date +:+ post)) = date).
  { rewrite (lstrip_app_all _ _ _ Hpre). destruct date as [|c date].
    - simpl. apply rstrip_all_in. now apply lstrip_all_in.
    - apply lstrip_fixed_head in Hl.
      replace (Str.lstrip " -(" (String c date +:+ post)) with (String c date +:+ post)
        by (cbn [String.append Str.lstrip]; now rewrite Hl).
      now rewrite (rstrip_app_all _ _ _ Hpost). }
  unfold extract_date. destruct (pre +:+ date +:+ post); [| exact E].
  now rewrite <- E.
Qed.

Lemma extract_date_inside_witness :
  all_in " -(" " - (" = true
  /\ all_in " )" ") " = true
  /\ Str.lstrip " -(" "2020-12-31" = "2020-12-31"
  /\ Str.rstrip " )" "2020-12-31" = "2020-12-31"
  /\ extract_date (" - (" +:+ "2020-12-31" +:+ ") ") = "2020-12-31".
Proof.
  repeat (split; [reflexivity |]).
  exact (extract_date_inside " - (" "2020-12-31" ") " eq_refl eq_refl eq_refl eq_refl).
Defined.

(** X2.  [extract_date] on its own result changes nothing. *)
Theorem extract_date_idempotent (date : string) :
  extract_date (extract_date date) = extract_date date.
Proof.
  unfold extract_date at 2. destruct date as [|c date]; [reflexivity |].
  pose proof (strip_idempotent " -(" " )" (String c date)) as H. cbv zeta in H.
  unfold extract_date.
  destruct (Str.rstrip " )" (Str.lstrip " -(" (String c date))); [reflexivity |].
  exact H.
Qed.

(** X3.  [unlink] on its own result changes nothing. *)
Theorem unlink_idempotent (value : string) : unlink (unlink value) = unlink value.
Proof. apply (strip_idempotent "[" "]"). Qed.

(** ** What a heading registers *)

(** X4.  [add_release] gets a version and a date out of a heading exactly
    when the heading has a second inline child with a [content], and its
    first child is raw text (the version is that text, unlinked) or a link
    whose first child has a [content] (the version is that content),
    whatever [show_unreleased] is.  In every other case it returns its empty
    dictionary or raises. *)
Theorem release_fields_registers (level : nat) (children : list span_token)
  (show_unreleased : bool) (version date : string) :
  release_fields (Block (Heading level children)) show_unreleased
  = Ok (Some (version, date))
  <-> exists token date_token rest,
      children = token :: date_token :: rest
      /\ content_of date_token = Ok date
      /\ match token with
         | RawText content => version = unlink content
         | Link (label :: _) _ => content_of label = Ok version
         | _ => False
         end.
Proof.
  unfold release_fields. cbn [heading_children bind].
  destruct children as [|token [|date_token rest]].
  - split; [discriminate | now intros (? & ? & ? & ? & _)].
  - split; [| now intros (? & ? & ? & ? & _)].
    destruct show_unreleased; cbn -[unlink]; [| discriminate].
    destruct token as [content|[|label labels] target|content others];
      cbn -[unlink]; try discriminate.
    destruct (content_of label); discriminate.
  - cbn -[unlink content_of].
    split.
    + intros H. exists token, date_token, rest. split; [reflexivity |].
      destruct token as [content|[|label labels] target|content others];
        cbn -[unlink content_of] in H; try discriminate.
      * destruct (content_of date_token) as [d|e]; cbn in H; [| discriminate].
        injection H as <- <-. split; reflexivity.
      * destruct (content_of label) as [v|e]; cbn -[content_of] in H; [| discriminate].
        destruct (content_of date_token) as [d|e]; cbn in H; [| discriminate].
        injection H as <- <-. split; reflexivity.
      * destruct (content_of date_token) as [d|e]; cbn in H; discriminate.
    + intros (token' & date_token' & rest' & [= <- <- <-] & Hdate & Htoken).
      destruct token as [content|[|label labels] target|content others];
        try contradiction; cbn -[unlink content_of].
      * rewrite Hdate. cbn. now subst version.
      * rewrite Htoken. cbn -[content_of]. rewrite Hdate. reflexivity.
Qed.

Lemma release_fields_registers_witness :
  release_fields
    (Block (Heading 2 [Link [RawText "1.2.0"] "https://x/v1.2.0"; RawText " - 2021-01-31"]))
    true
  = Ok (Some ("1.2.0", " - 2021-01-31")).
Proof.
  apply (proj2 (release_fields_registers 2 _ true "1.2.0" " - 2021-01-31")).
  exists (Link [RawText "1.2.0"] "https://x/v1.2.0"), (RawText " - 2021-01-31"), [].
  repeat split.
Defined.

(** ** The promoter, line by line *)

Lemma mem_app (c : ascii) (x y : string) :
  Str.mem c (x +:+ y) = Str.mem c x || Str.mem c y.
Proof.
  induction x as [|d x IH]; simpl; [reflexivity |].
  now rewrite IH, orb_assoc.
Qed.

Lemma drop_prefix_absent (c : ascii) (p s : string) :
  Str.mem c s = false -> Str.drop_prefix (String c p) s = None.
Proof.
  destruct s as [|d s]; simpl; [reflexivity |].
  intros H. apply orb_false_iff in H as [H _]. now rewrite H.
Qed.

(** A star that cannot take one character more takes none. *)
Lemma star_stop (class : ascii -> bool) (k : string -> string -> option (list string))
  (taken s : string) :
  (forall x y, s = x +:+ y -> x <> EmptyString -> k (taken +:+ x) y = None) ->
  Re.star class k taken s = k taken s.
Proof.
  revert taken. induction s as [|c s IH]; intros taken H; simpl; [reflexivity |].
  destruct (class c); [| reflexivity].
  rewrite IH.
  - now rewrite (H (String c EmptyString) s eq_refl).
  - intros x y -> Hx. rewrite append_assoc. now apply H.
Qed.

(** A star over every character may take a prefix at once. *)
Lemma star_dot_skip (k : string -> string -> option (list string))
  (taken u v : string) (groups : list string) :
  Re.star Re.dot k (taken +:+ u) v = Some groups ->
  Re.star Re.dot k taken (u +:+ v) = Some groups.
Proof.
  revert taken. induction u as [|c u IH]; intros taken; simpl.
  - now rewrite append_nil_r.
  - intros H. rewrite IH; [reflexivity |]. now rewrite append_assoc.
Qed.

(** A star takes the characters of its class up to the first that is not,
    when the rest of the pattern accepts what follows. *)
Lemma star_class_all (class : ascii -> bool)
  (k : string -> string -> option (list string)) (taken w rest : string) :
  all_chars class w = true ->
  stops class rest = true ->
  is_Some (k (taken +:+ w) rest) ->
  Re.star class k taken (w +:+ rest) = k (taken +:+ w) rest.
Proof.
  intros Hw Hrest. revert taken. induction w as [|c w IH]; intros taken Hk; simpl.
  - rewrite append_nil_r in *. destruct rest as [|c rest]; simpl; [reflexivity |].
    simpl in Hrest. now destruct (class c).
  - simpl in Hw. apply andb_true_iff in Hw as [Hc Hw]. rewrite Hc.
    assert (E : taken +:+ String c w = (taken +:+ String c EmptyString) +:+ w)
      by now rewrite append_assoc.
    rewrite E in *. rewrite (IH Hw _ Hk). now destruct Hk as [groups ->].
Qed.

Lemma word_not_separator (unicode_word : ascii -> bool) (w : string) :
  all_chars (Re.word unicode_word) w = true ->
  Str.mem "/" w = false /\ Str.mem "." w = false.
Proof.
  induction w as [|c w IH]; simpl; [tauto |].
  intros H. apply andb_true_iff in H as [Hc Hw]. destruct (IH Hw) as [H1 H2].
  rewrite H1, H2, !orb_false_r. split.
  - destruct (Ascii.eqb "/" c) eqn:E; [| reflexivity].
    apply Ascii.eqb_eq in E. subst c. discriminate Hc.
  - destruct (Ascii.eqb "." c) eqn:E; [| reflexivity].
    apply Ascii.eqb_eq in E. subst c. discriminate Hc.
Qed.

(** After the three dots of [...wr], where [wr] has no dot, no three dots
    start. *)
Lemma dots_not_later (wr x y : string) :
  Str.mem "." wr = false ->
  "..." +:+ wr = x +:+ y ->
  x <> EmptyString ->
  Str.drop_prefix "..." y = None.
Proof.
  intros Hwr E Hx.
  destruct x as [|c1 [|c2 [|c3 x]]]; [congruence | | |];
    simpl in E; inversion E; subst; clear E.
  - destruct wr as [|d wr]; [reflexivity |].
    simpl in Hwr. apply orb_false_iff in Hwr as [Hd _].
    cbn [Str.drop_prefix]. rewrite !Ascii.eqb_refl, Hd. reflexivity.
  - destruct wr as [|d wr]; [reflexivity |].
    simpl in Hwr. apply orb_false_iff in Hwr as [Hd _].
    cbn [Str.drop_prefix]. rewrite !Ascii.eqb_refl, Hd. reflexivity.
  - rewrite mem_app in Hwr. apply orb_false_iff in Hwr as [_ Hy].
    now apply drop_prefix_absent.
Qed.

Section PromoterLines.

Variable unicode_word : ascii -> bool.
Variable today : string.

(** The lines that take the compare branch. *)
Definition is_compare_link (line : string) : bool :=
  Re.matches unreleased_link_pattern line
  && Re.matches (unreleased_compare_pattern unicode_word) line.

(** X5.  The groups of the compare pattern.  In a line [a/b...w rest] where
    [b] has no slash, [w] is made of word characters, and [rest] has neither
    slash nor dot and does not start with a word character, the first group
    is [b], what is between the last slash and the dots, and the second is
    [w], the word after the dots. *)
Theorem compare_pattern_groups (a b w rest : string) :
  Str.mem "/" b = false ->
  all_chars (Re.word unicode_word) w = true ->
  Str.mem "/" rest = false ->
  Str.mem "." rest = false ->
  stops (Re.word unicode_word) rest = true ->
  Re.fullmatch (unreleased_compare_pattern unicode_word)
    (a +:+ "/" +:+ b +:+ "..." +:+ w +:+ rest)
  = Some [b; w].
Proof.
  intros Hb Hw Hrest1 Hrest2 Hstop.
  destruct (word_not_separator _ _ Hw) as [Hw1 Hw2].
  assert (Hwr : Str.mem "." (w +:+ rest) = false)
    by now rewrite mem_app, Hw2, Hrest2.
  assert (Hs2 : Str.mem "/" (b +:+ "..." +:+ w +:+ rest) = false).
  { rewrite (mem_app "/" b), Hb.
    change (Str.mem "/" (w +:+ rest) = false).
    now rewrite mem_app, Hw1, Hrest1. }
  remember (w +:+ rest) as wr eqn:Ewr.
  remember (b +:+ "..." +:+ wr) as s2 eqn:Es2.
  unfold unreleased_compare_pattern. cbn [Re.fullmatch].
  apply star_dot_skip. rewrite star_stop.
  2:{ intros x y E Hx. destruct x as [|c x]; [congruence |].
      injection E as <- E. rewrite E, mem_app in Hs2.
      apply orb_false_iff in Hs2 as [_ Hy].
      now rewrite (drop_prefix_absent "/" EmptyString y Hy). }
  rewrite drop_prefix_app. subst s2.
  rewrite (star_dot_skip _ EmptyString b ("..." +:+ wr) [b; w]); [reflexivity |].
  rewrite star_stop.
  2:{ intros x y E Hx. now rewrite (dots_not_later wr x y Hwr E Hx). }
  rewrite drop_prefix_app. subst wr.
  rewrite (star_class_all _ _ EmptyString w rest Hw Hstop).
  - cbn [String.append]. now erewrite star_dot_all by reflexivity.
  - cbn [String.append]. erewrite star_dot_all by reflexivity. eauto.
Qed.

(** What a line gives, case by case. *)
Lemma promote_line_cases current_version (new_version line : string) :
  (Re.matches unreleased_heading_pattern line = true
   /\ promote_line unicode_word today current_version new_version line
      = Ok [line; Str.nl; "## [" +:+ new_version +:+ "] - " +:+ today +:+ Str.nl])
  \/ (Re.matches unreleased_heading_pattern line = false
      /\ Re.matches unreleased_link_pattern line = false
      /\ promote_line unicode_word today current_version new_version line = Ok [line])
  \/ (Re.matches unreleased_heading_pattern line = false
      /\ Re.matches unreleased_link_pattern line = true
      /\ is_compare_link line = false
      /\ promote_line unicode_word today current_version new_version line
         = Ok [line; Str.replace "Unreleased" new_version line])
  \/ (Re.matches unreleased_heading_pattern line = false
      /\ Re.matches unreleased_link_pattern line = true
      /\ is_compare_link line = true
      /\ match current_version with
         | None =>
             promote_line unicode_word today current_version new_version line
             = Raise TypeError
         | Some _ =>
             exists first second,
               promote_line unicode_word today current_version new_version line
               = Ok [first; second]
         end).
Proof.
  unfold promote_line, is_compare_link, Re.matches.
  destruct (Re.fullmatch unreleased_heading_pattern line); [left; split; reflexivity |].
  right.
  destruct (Re.fullmatch unreleased_link_pattern line); [| left; repeat split].
  right.
  destruct (Re.fullmatch (unreleased_compare_pattern unicode_word) line);
    [right | left; repeat split].
  repeat (split; [reflexivity |]).
  destruct current_version; simpl; eauto.
Qed.

Lemma heading_not_link (line : string) :
  Re.matches unreleased_heading_pattern line = true ->
  Re.matches unreleased_link_pattern line = false.
Proof.
  intros H. destruct (Re.matches unreleased_link_pattern line) eqn:E; [| reflexivity].
  apply link_not_heading in E. unfold Re.matches in H. now rewrite E in H.
Qed.

(** X6.  [release_version] raises in one case only: without a current
    version, on a changelog that has an Unreleased link line of the compare
    shape; what it raises is the [TypeError] of [replace]. *)
Theorem release_version_raises current_version (new_version change_log : string)
  (e : exn) :
  release_version unicode_word today current_version new_version change_log = Raise e
  <-> e = TypeError
      /\ current_version = None
      /\ Exists (fun line => is_compare_link line = true) (Str.readlines change_log).
Proof.
  unfold release_version.
  enough (H : forall input lines,
             promote_lines unicode_word today current_version new_version input lines
             = Raise e
             <-> e = TypeError /\ current_version = None
                 /\ Exists (fun line => is_compare_link line = true) input).
  { rewrite <- H with (lines := []).
    destruct (promote_lines _ _ _ _ _ _); simpl; split; congruence. }
  induction input as [|line input IH]; intros lines; simpl.
  - split; [discriminate | intros (_ & _ & H); inversion H].
  - destruct (promote_line_cases current_version new_version line)
      as [(Hh & E)|[(_ & Hl & E)|[(_ & _ & Hc & E)|(_ & _ & Hc & H)]]].
    + assert (Hc : is_compare_link line = false)
        by (unfold is_compare_link; now rewrite (heading_not_link line Hh)).
      rewrite E. cbn [bind]. rewrite IH, Exists_cons, Hc. intuition discriminate.
    + assert (Hc : is_compare_link line = false)
        by (unfold is_compare_link; now rewrite Hl).
      rewrite E. cbn [bind]. rewrite IH, Exists_cons, Hc. intuition discriminate.
    + rewrite E. cbn [bind]. rewrite IH, Exists_cons, Hc. intuition discriminate.
    + destruct current_version as [current|].
      * destruct H as (first & second & ->). cbn [bind].
        rewrite IH. intuition discriminate.
      * rewrite H. cbn [bind]. rewrite Exists_cons.
        split; [intros [= <-]; auto | intros (-> & _); reflexivity].
Qed.

(** X7.  Every line that starts with [## [Unreleased]] is an Unreleased
    heading, whatever follows on it: it gives itself, an empty line and the
    heading of the new version with today's date, with or without a current
    version. *)
Theorem promote_heading_line current_version (new_version line : string) :
  Str.startswith line "## [Unreleased]" = true ->
  promote_line unicode_word today current_version new_version line
  = Ok [line; Str.nl; "## [" +:+ new_version +:+ "] - " +:+ today +:+ Str.nl].
Proof.
  intros H. rewrite <- heading_pattern_prefix in H.
  destruct (promote_line_cases current_version new_version line)
    as [(_ & E)|[(E & _)|[(E & _)|(E & _)]]]; congruence.
Qed.

(** X8.  The number of lines written: the lines read, two more for each
    Unreleased heading line and one more for each Unreleased link line. *)
Theorem promote_lines_length current_version (new_version : string)
  (input out : list string) :
  promote_lines unicode_word today current_version new_version input [] = Ok out ->
  length out
  = length input
    + 2 * count_lines (Re.matches unreleased_heading_pattern) input
    + count_lines (Re.matches unreleased_link_pattern) input.
Proof.
  revert out. induction input as [|line input IH]; intros out; simpl.
  - now intros [= <-].
  - destruct (promote_line unicode_word today current_version new_version line)
      as [appended|e] eqn:E; cbn [bind]; [| discriminate].
    rewrite promote_lines_acc.
    destruct (promote_lines unicode_word today current_version new_version input [])
      as [rest|e']; cbn [bind]; [| discriminate].
    intros [= <-]. rewrite length_app, (IH rest eq_refl).
    destruct (promote_line_cases current_version new_version line)
      as [(Hh & E')|[(Hh & Hl & E')|[(Hh & Hl & _ & E')|(Hh & Hl & _ & E')]]];
      rewrite Hh, ?Hl, ?(heading_not_link line Hh).
    + rewrite E' in E. injection E as <-. simpl. lia.
    + rewrite E' in E. injection E as <-. simpl. lia.
    + rewrite E' in E. injection E as <-. simpl. lia.
    + destruct current_version; [| congruence].
      destruct E' as (first & second & E'). rewrite E' in E. injection E as <-.
      simpl. lia.
Qed.

(** X9.  No line is lost or moved but the Unreleased link lines of the
    compare shape: the other lines of the file are, in their order, among
    the lines written. *)
Theorem promote_lines_keeps current_version (new_version : string)
  (input out : list string) :
  promote_lines unicode_word today current_version new_version input [] = Ok out ->
  filter (fun line => is_compare_link line = false) input `sublist_of` out.
Proof.
  revert out. induction input as [|line input IH]; intros out; simpl.
  - intros [= <-]. constructor.
  - destruct (promote_line unicode_word today current_version new_version line)
      as [appended|e] eqn:E; cbn [bind]; [| discriminate].
    rewrite promote_lines_acc.
    destruct (promote_lines unicode_word today current_version new_version input [])
      as [rest|e']; cbn [bind]; [| discriminate].
    intros [= <-]. specialize (IH rest eq_refl).
    destruct (promote_line_cases current_version new_version line)
      as [(Hh & E')|[(Hh & Hl & E')|[(Hh & Hl & Hc & E')|(Hh & Hl & Hc & E')]]].
    + rewrite filter_cons_True
        by (unfold is_compare_link; now rewrite (heading_not_link line Hh)).
      rewrite E' in E. injection E as <-.
      apply (sublist_app [line] _ _ _); [| exact IH].
      apply sublist_skip, sublist_nil_l.
    + rewrite filter_cons_True by (unfold is_compare_link; now rewrite Hl).
      rewrite E' in E. injection E as <-.
      now apply (sublist_app [line] _ _ _).
    + rewrite filter_cons_True by exact Hc.
      rewrite E' in E. injection E as <-.
      apply (sublist_app [line] _ _ _); [| exact IH].
      apply sublist_skip, sublist_nil_l.
    + rewrite filter_cons_False by (rewrite Hc; discriminate).
      now apply sublist_inserts_l.
Qed.

Lemma split_after_prefix (p url a r : string) :
  Str.mem "/" p = false ->
  p +:+ url = a +:+ "/" +:+ r ->
  exists a', a = p +:+ a' /\ url = a' +:+ "/" +:+ r.
Proof.
  revert a. induction p as [|c p IH]; intros a Hp E.
  - exists a. split; [reflexivity | exact E].
  - simpl in Hp. apply orb_false_iff in Hp as [Hc Hp].
    destruct a as [|d a]; simpl in E; injection E as -> E.
    + now rewrite Ascii.eqb_refl in Hc.
    + destruct (IH a Hp E) as (a' & -> & ->). now exists a'.
Qed.

(** X10.  An Unreleased link line takes the compare branch exactly when its
    URL, what follows [[Unreleased]: ], has a slash and, somewhere after it,
    three dots. *)
Theorem compare_link_shape (line : string) :
  is_compare_link line = true
  <-> exists a b c, line = "[Unreleased]: " +:+ a +:+ "/" +:+ b +:+ "..." +:+ c.
Proof.
  unfold is_compare_link. rewrite andb_true_iff, compare_pattern_shape.
  unfold Re.matches. rewrite link_pattern_prefix. split.
  - intros [Hlink (a & b & c & E)].
    destruct (Str.drop_prefix "[Unreleased]: " line) as [url|] eqn:D; [| discriminate].
    apply drop_prefix_Some in D. rewrite D in E.
    destruct (split_after_prefix "[Unreleased]: " url a (b +:+ "..." +:+ c) eq_refl E)
      as (a' & _ & ->).
    rewrite D. now exists a', b, c.
  - intros (a & b & c & ->). split.
    + now rewrite drop_prefix_app.
    + exists ("[Unreleased]: " +:+ a), b, c. now rewrite append_assoc.
Qed.

End PromoterLines.

Lemma compare_pattern_groups_witness :
  Re.fullmatch (unreleased_compare_pattern (fun _ => false))
    ("[Unreleased]: https://github.com/me/it/compare" +:+ "/" +:+ "v0.3.0"
     +:+ "..." +:+ "main" +:+ Str.nl)
  = Some ["v0.3.0"; "main"].
Proof.
  apply (compare_pattern_groups (fun _ => false)); reflexivity.
Defined.

Lemma release_version_raises_witness :
  release_version (fun _ => false) "2026-11-04" None "0.4.0"
    ("# Changelog" +:+ Str.nl
     +:+ "[Unreleased]: https://x/compare/v0.3.0...main" +:+ Str.nl)
  = Raise TypeError.
Proof.
  apply (proj2 (release_version_raises (fun _ => false) "2026-11-04" None "0.4.0" _ _)).
  split; [reflexivity | split; [reflexivity |]].
  apply Exists_cons_tl, Exists_cons_hd. reflexivity.
Defined.

Lemma promote_heading_line_witness :
  Str.startswith "## [Unreleased] (soon)" "## [Unreleased]" = true
  /\ promote_line (fun _ => false) "2026-11-04" None "0.4.0" "## [Unreleased] (soon)"
     = Ok ["## [Unreleased] (soon)"; Str.nl; "## [0.4.0] - 2026-11-04" +:+ Str.nl].
Proof.
  split; [reflexivity |].
  exact (promote_heading_line (fun _ => false) "2026-11-04" None "0.4.0"
           "## [Unreleased] (soon)" eq_refl).
Defined.

Lemma promote_lines_length_witness :
  let input :=
    ["# Changelog" +:+ Str.nl; "## [Unreleased]" +:+ Str.nl;
     "[Unreleased]: https://x/compare/v0.3.0...main" +:+ Str.nl;
     "[0.3.0]: https://x/releases/v0.3.0"] in
  exists out,
    promote_lines (fun _ => false) "2026-11-04" (Some "0.3.0") "0.4.0" input [] = Ok out
    /\ length out = 4 + 2 * 1 + 1.
Proof.
  intros input. eexists. split; [reflexivity |].
  exact (promote_lines_length (fun _ => false) "2026-11-04" (Some "0.3.0") "0.4.0"
           input _ eq_refl).
Defined.

Lemma promote_lines_keeps_witness :
  let input :=
    ["# Changelog" +:+ Str.nl; "## [Unreleased]" +:+ Str.nl;
     "[Unreleased]: https://x/compare/v0.3.0...main" +:+ Str.nl;
     "[0.3.0]: https://x/releases/v0.3.0"] in
  exists out,
    promote_lines (fun _ => false) "2026-11-04" (Some "0.3.0") "0.4.0" input [] = Ok out
    /\ ["# Changelog" +:+ Str.nl; "## [Unreleased]" +:+ Str.nl;
        "[0.3.0]: https://x/releases/v0.3.0"] `sublist_of` out.
Proof.
  intros input. eexists. split; [reflexivity |].
  exact (promote_lines_keeps (fun _ => false) "2026-11-04" (Some "0.3.0") "0.4.0"
           input _ eq_refl).
Defined.

(** ** The reader, block by block *)

(** Every block of a document that is read to the end is visited. *)
Lemma visit_all_visits render show_unreleased (sections : list block_token)
  (f f' : frame) (block : block_token) :
  visit_all render show_unreleased f sections = Ok f' ->
  block ∈ sections ->
  exists f1 f2, visit render show_unreleased f1 block = Ok f2.
Proof.
  revert f. induction sections as [|b sections IH]; intros f; simpl.
  - intros _ H. now apply elem_of_nil in H.
  - destruct (visit render show_unreleased f b) as [f1|e] eqn:E; cbn [bind];
      [| discriminate].
    intros H Hin. apply elem_of_cons in Hin as [->|Hin]; eauto.
Qed.

(** A release heading that is visited without an exception is skipped, or
    has two children at least and registers. *)
Lemma visit_release_heading render show_unreleased (f f' : frame)
  (children : list span_token) :
  visit render show_unreleased f (Heading 2 children) = Ok f' ->
  (show_unreleased = false /\ length children = 1)
  \/ (2 <= length children
      /\ is_Some (registers show_unreleased (Heading 2 children))).
Proof.
  unfold visit, registers, add_release. cbn [is_release Nat.eqb].
  destruct children as [|token [|date_token rest]].
  - discriminate.
  - destruct show_unreleased; [| now left].
    unfold release_fields. cbn -[unlink].
    destruct token as [content|[|label labels] target|content others];
      cbn -[unlink]; try discriminate.
    destruct (content_of label); discriminate.
  - intros H. right. split; [simpl; lia |].
    destruct (release_fields (Block (Heading 2 (token :: date_token :: rest)))
                show_unreleased) as [[[version date]|]|e] eqn:E; eauto.
    + unfold release_fields in E. cbn -[unlink content_of] in E.
      destruct token as [content|[|label labels] target|content others];
        cbn -[unlink content_of] in E; try discriminate;
        repeat (destruct (content_of _); cbn -[unlink content_of] in E;
                try discriminate).
    + discriminate.
Qed.

(** X11.  When [to_dict] returns, every release heading of the document
    either was skipped ([show_unreleased] false, one inline child) or has at
    least two inline children and registered a release.  With
    [show_unreleased] true no release heading with fewer than two children
    is read without an exception. *)
Theorem to_dict_release_headings (render : block_token -> string)
  (parsed_changelog : list block_token) (show_unreleased : bool)
  (r : list object * value) (children : list span_token) :
  to_dict render parsed_changelog show_unreleased = Ok r ->
  Heading 2 children ∈ parsed_changelog ->
  (show_unreleased = false /\ length children = 1)
  \/ (2 <= length children
      /\ is_Some (registers show_unreleased (Heading 2 children))).
Proof.
  unfold to_dict.
  destruct (visit_all render show_unreleased start parsed_changelog) as [f|e] eqn:E;
    cbn [bind]; [| discriminate].
  intros _ Hin.
  destruct (visit_all_visits _ _ _ _ _ _ E Hin) as (f1 & f2 & H).
  exact (visit_release_heading _ _ _ _ _ H).
Qed.

Lemma to_dict_release_headings_witness :
  let parsed_changelog :=
    [Heading 2 [Link [RawText "Unreleased"] "https://x/compare/v0.3.0...main"];
     Heading 2 [Link [RawText "0.3.0"] "https://x/v0.3.0"; RawText " - 2021-01-31"]] in
  exists r,
    to_dict (fun _ => "") parsed_changelog false = Ok r
    /\ is_Some (registers false
                  (Heading 2 [Link [RawText "0.3.0"] "https://x/v0.3.0";
                              RawText " - 2021-01-31"])).
Proof.
  intros parsed_changelog. eexists. split; [reflexivity |].
  destruct (to_dict_release_headings (fun _ => "") parsed_changelog false _
              [Link [RawText "0.3.0"] "https://x/v0.3.0"; RawText " - 2021-01-31"]
              eq_refl) as [[_ H]|[_ H]].
  - apply list_elem_of_In. right. left. reflexivity.
  - discriminate H.
  - exact H.
Defined.

(** A list that is visited without an exception changes nothing. *)
Lemma visit_list_unchanged render show_unreleased (f f' : frame)
  (entries : list block_token) :
  lists_empty (objects f) ->
  visit render show_unreleased f (List entries) = Ok f' ->
  f' = f.
Proof.
  intros Hempty. unfold visit. cbn [is_release is_category is_list andb].
  destruct (truthy (objects f) (current_release f)); cbn [andb];
    [| now intros [= <-]].
  destruct (truthy (objects f) (category f)) eqn:T; [| now intros [= <-]].
  unfold add_change_list.
  destruct (append_entries render (objects f) (category f) entries) as [h|e] eqn:E;
    cbn [bind]; [| discriminate].
  intros [= <-]. rewrite (append_entries_lists_empty _ _ _ _ _ Hempty T E).
  now destruct f.
Qed.

(** X12.  The lists of a document do not count: when [to_dict] returns, it
    returns the same, heap and dictionary, on the document without its
    lists. *)
Theorem to_dict_without_lists (render : block_token -> string)
  (parsed_changelog : list block_token) (show_unreleased : bool)
  (r : list object * value) :
  to_dict render parsed_changelog show_unreleased = Ok r ->
  to_dict render
    (filter (fun block => is_list (Block block) = false) parsed_changelog)
    show_unreleased
  = Ok r.
Proof.
  unfold to_dict.
  enough (H : forall f f',
             lists_empty (objects f) ->
             visit_all render show_unreleased f parsed_changelog = Ok f' ->
             visit_all render show_unreleased f
               (filter (fun block => is_list (Block block) = false) parsed_changelog)
             = Ok f').
  { destruct (visit_all render show_unreleased start parsed_changelog) as [f|e] eqn:E;
      cbn [bind]; [| discriminate].
    intros [= <-]. rewrite (H start f); [reflexivity | repeat constructor | exact E]. }
  induction parsed_changelog as [|block blocks IH]; intros f f' Hempty;
    [trivial |].
  cbn [visit_all].
  destruct (visit render show_unreleased f block) as [f1|e] eqn:E; cbn [bind];
    [| discriminate].
  intros H. destruct (is_list (Block block)) eqn:L.
  - rewrite filter_cons_False
      by (intros HL; cbv beta in HL; rewrite L in HL; discriminate HL).
    destruct block; try discriminate L.
    rewrite (visit_list_unchanged _ _ _ _ _ Hempty E) in H. now apply IH.
  - rewrite filter_cons_True by exact L.
    cbn [visit_all]. rewrite E. cbn [bind].
    apply IH; [| exact H]. exact (visit_lists_empty _ _ _ _ _ Hempty E).
Qed.

Lemma to_dict_without_lists_witness :
  let parsed_changelog :=
    [Heading 2 [Link [RawText "0.3.0"] "https://x/v0.3.0"; RawText " - 2021-01-31"];
     Heading 3 [RawText "Added"];
     List [ListItem [Paragraph [RawText "A thing"]]]] in
  exists r,
    to_dict (fun _ => "A thing") parsed_changelog false = Ok r
    /\ to_dict (fun _ => "A thing")
         [Heading 2 [Link [RawText "0.3.0"] "https://x/v0.3.0"; RawText " - 2021-01-31"];
          Heading 3 [RawText "Added"]] false
       = Ok r.
Proof.
  intros parsed_changelog. eexists. split; [reflexivity |].
  exact (to_dict_without_lists (fun _ => "A thing") parsed_changelog false _ eq_refl).
Defined.

(** X14.  [release] reads the changelog with [show_unreleased] true, so on a
    changelog with a release heading of one inline child, as the heading
    [## [Unreleased]] is, it raises, whatever the version guessed would be,
    and the file is not rewritten. *)
Theorem release_dateless_heading (parse : string -> list block_token)
  (render : block_token -> string)
  (guess_unreleased_version : list object * value -> result (option string * string))
  (unicode_word : ascii -> bool) (today change_log : string) (token : span_token) :
  Heading 2 [token] ∈ parse change_log ->
  exists e,
    release parse render guess_unreleased_version unicode_word today change_log
    = Raise e.
Proof.
  intros Hin. unfold release, to_dict.
  destruct (visit_all render true start (parse change_log)) as [f|e] eqn:E;
    cbn [bind]; [| eauto].
  destruct (visit_all_visits _ _ _ _ _ _ E Hin) as (f1 & f2 & H).
  destruct (visit_release_heading _ _ _ _ _ H) as [[? _]|[Hlen _]];
    [discriminate | simpl in Hlen; lia].
Qed.

Lemma release_dateless_heading_witness :
  let parse := fun _ : string =>
    [Heading 1 [RawText "Changelog"]; Heading 2 [RawText "[Unreleased]"]] in
  exists e,
    release parse (fun _ => "") (fun _ => Ok (None, "0.0.1")) (fun _ => false)
      "2026-11-04" ("# Changelog" +:+ Str.nl +:+ "## [Unreleased]" +:+ Str.nl)
    = Raise e.
Proof.
  intros parse.
  apply (release_dateless_heading parse (fun _ => "") (fun _ => Ok (None, "0.0.1"))
           (fun _ => false) "2026-11-04" _ (RawText "[Unreleased]")).
  apply list_elem_of_In. right. left. reflexivity.
Defined.

(** ** The reader and its summary *)

Lemma agree_off_alloc (a : nat) (h : heap) (o : object) : agree_off a h (h ++ [o]).
Proof. intros x o' _ H. now apply lookup_app_l_Some. Qed.

Lemma agree_off_insert_alloc (a : nat) (h : heap) (o o' : object) :
  agree_off a h (<[a := o]> (h ++ [o'])).
Proof.
  intros x ox Hx H. rewrite list_lookup_insert_ne by congruence.
  now apply lookup_app_l_Some.
Qed.

Lemma read_field_agree (a : nat) (h h' : heap) (items : list (string * value))
  (v : value) (y : field) :
  agree_off a h h' ->
  h !! a = Some (Dict items) ->
  read_field h v = Some y ->
  read_field h' v = Some y.
Proof.
  intros Hagree Ha. destruct v as [s|b]; simpl; [trivial |].
  destruct (h !! b) as [[d|entries]|] eqn:Hb; try discriminate.
  intros [= <-]. rewrite (Hagree b (PyList entries)); [reflexivity | | exact Hb].
  intros ->. congruence.
Qed.

Lemma read_items_impl {A : Type} (read read' : value -> option A)
  (items : list (string * value)) (r : list (string * A)) :
  (forall v y, read v = Some y -> read' v = Some y) ->
  read_items read items = Some r ->
  read_items read' items = Some r.
Proof.
  intros H. unfold read_items. revert r.
  induction items as [|[k v] items IH]; intros r; cbn [mapM fst snd]; [trivial |].
  destruct (read v) as [y|] eqn:Ev; [| discriminate]. rewrite (H _ _ Ev). simpl.
  destruct (mapM _ items) as [r'|]; [| discriminate].
  now rewrite (IH r' eq_refl).
Qed.

Lemma read_release_agree (a : nat) (h h' : heap) (items : list (string * value))
  (v : value) (r : list (string * field)) :
  agree_off a h h' ->
  h !! a = Some (Dict items) ->
  v <> VRef a ->
  read_release h v = Some r ->
  read_release h' v = Some r.
Proof.
  intros Hagree Ha Hv. destruct v as [s|x]; simpl; [trivial |].
  destruct (h !! x) as [[fields|entries]|] eqn:Hx; try discriminate.
  rewrite (Hagree x (Dict fields)); [| congruence | exact Hx].
  apply read_items_impl. intros w y. now apply read_field_agree with (a := a) (items := items).
Qed.

Lemma entry_of_agree (a : nat) (h h' : heap) (items : list (string * value)) kr kv :
  agree_off a h h' ->
  h !! a = Some (Dict items) ->
  kv.2 <> VRef a ->
  entry_of h kr kv ->
  entry_of h' kr kv.
Proof.
  intros Hagree Ha Hv (Hk & H0 & Hread).
  split; [exact Hk | split; [exact H0 |]].
  now apply read_release_agree with (a := a) (h := h) (items := items).
Qed.

Lemma entries_agree (a : nat) (h h' : heap) (d : list (string * value)) reg items :
  agree_off a h h' ->
  h !! a = Some (Dict d) ->
  VRef a ∉ items.*2 ->
  Forall2 (entry_of h) reg items ->
  Forall2 (entry_of h') reg items.
Proof.
  intros Hagree Ha Hnot H. induction H as [|kr kv reg items Hkr _ IH]; [constructor |].
  rewrite fmap_cons, not_elem_of_cons in Hnot. destruct Hnot as [Hne Hnot].
  constructor; [| now apply IH].
  apply entry_of_agree with (a := a) (h := h) (items := d); auto.
Qed.

(** The releases of [changes], but [changes] itself, are not at address 0. *)
Lemma entries_not_changes (h : heap) reg items :
  Forall2 (entry_of h) reg items -> VRef 0 ∉ items.*2.
Proof.
  induction 1 as [|kr kv reg items (_ & H0 & _) _ IH]; [apply not_elem_of_nil |].
  rewrite fmap_cons, not_elem_of_cons. split; [congruence | exact IH].
Qed.

(** The releases of [changes] are on the heap. *)
Lemma entries_allocated (h : heap) reg items :
  Forall2 (entry_of h) reg items -> VRef (length h) ∉ items.*2.
Proof.
  induction 1 as [|kr [k v] reg items (_ & _ & Hread) _ IH]; [apply not_elem_of_nil |].
  rewrite fmap_cons, not_elem_of_cons. split; [| exact IH].
  simpl in *. intros <-. simpl in Hread.
  now rewrite (lookup_ge_None_2 h (length h)) in Hread by lia.
Qed.

Lemma entries_lookup (h : heap) reg items (key : string) :
  Forall2 (entry_of h) reg items ->
  match lookup_key key items with
  | Some v =>
      v <> VRef 0 /\ v ∈ items.*2
      /\ exists fields, lookup_key key reg = Some fields
                         /\ read_release h v = Some fields
  | None => lookup_key key reg = None
  end.
Proof.
  induction 1 as [|[k fields] [k' v] reg items (Hk & H0 & Hread) _ IH];
    simpl; [reflexivity |].
  simpl in Hk, H0, Hread. subst k'.
  destruct (String.eqb k key).
  - split; [exact H0 | split; [apply list_elem_of_here | eauto]].
  - destruct (lookup_key key items); [| exact IH].
    destruct IH as (Hv & Hin & Hfields).
    split; [exact Hv | split; [now apply list_elem_of_further | exact Hfields]].
Qed.

Lemma entries_read (h : heap) reg items :
  Forall2 (entry_of h) reg items -> read_items (read_release h) items = Some reg.
Proof.
  unfold read_items.
  induction 1 as [|[k fields] [k' v] reg items (Hk & _ & Hread) _ IH];
    [reflexivity |].
  simpl in Hk, Hread. subst k'. cbn [mapM fst snd]. rewrite Hread, IH. reflexivity.
Qed.

Lemma read_items_lookup_None {A : Type} (read : value -> option A)
  (items : list (string * value)) (r : list (string * A)) (key : string) :
  read_items read items = Some r ->
  lookup_key key items = None <-> lookup_key key r = None.
Proof.
  unfold read_items. revert r.
  induction items as [|[k v] items IH]; intros r; cbn [mapM fst snd].
  - now intros [= <-].
  - destruct (read v) as [y|]; [| discriminate]. simpl.
    destruct (mapM _ items) as [r'|]; [| discriminate]. simpl.
    intros [= <-]. simpl.
    destruct (String.eqb k key); [split; discriminate | now apply IH].
Qed.

Lemma read_items_snoc {A : Type} (read : value -> option A)
  (items : list (string * value)) (r : list (string * A)) (key : string)
  (v : value) (y : A) :
  read_items read items = Some r ->
  read v = Some y ->
  read_items read (items ++ [(key, v)]) = Some (r ++ [(key, y)]).
Proof.
  unfold read_items. intros Hr Hv. revert r Hr.
  induction items as [|[k w] items IH]; intros r; cbn [mapM fst snd app].
  - intros [= <-]. now rewrite Hv.
  - destruct (read w) as [z|]; [| discriminate]. simpl.
    destruct (mapM _ items) as [r'|] eqn:E; [| discriminate]. simpl.
    intros [= <-]. now rewrite (IH r' eq_refl).
Qed.

Lemma update_key_same {V : Type} (key : string) (f : V -> V)
  (items : list (string * V)) (v : V) :
  lookup_key key items = Some v -> f v = v -> update_key key f items = items.
Proof.
  intros H Hf. induction items as [|[k w] items IH]; [reflexivity |].
  simpl in *. destruct (String.eqb k key).
  - injection H as ->. now rewrite Hf.
  - now rewrite IH.
Qed.

(** The release at [a] is changed by [g], and it alone. *)
Lemma entries_update (a : nat) (h h' : heap) (d : list (string * value))
  (g : list (string * field) -> list (string * field)) reg items (version : string) :
  agree_off a h h' ->
  h !! a = Some (Dict d) ->
  (forall fields, read_release h (VRef a) = Some fields ->
                  read_release h' (VRef a) = Some (g fields)) ->
  NoDup items.*2 ->
  lookup_key version items = Some (VRef a) ->
  Forall2 (entry_of h) reg items ->
  Forall2 (entry_of h') (update_key version g reg) items.
Proof.
  intros Hagree Ha Hg Hnd Hlookup H.
  induction H as [|[k fields] [k' v] reg items Hkr Hrest IH]; [constructor |].
  pose proof Hkr as (Hk & H0 & Hread). simpl in Hk, H0, Hread. subst k'.
  rewrite fmap_cons in Hnd. apply NoDup_cons in Hnd as [Hv Hnd].
  simpl in Hlookup |- *. destruct (String.eqb k version).
  - injection Hlookup as ->. constructor.
    + split; [reflexivity | split; [exact H0 | now apply Hg]].
    + now apply entries_agree with (a := a) (h := h) (d := d).
  - assert (Hin : VRef a ∈ items.*2).
    { pose proof (entries_lookup h reg items version Hrest) as Hl.
      rewrite Hlookup in Hl. tauto. }
    constructor; [| now apply IH].
    apply entry_of_agree with (a := a) (h := h) (items := d); auto.
    simpl. intros ->. contradiction.
Qed.

(** A release heading keeps the summary right. *)
Lemma add_release_refines show_unreleased (s : summary) (h h' : heap)
  (release release' cat : value) (section : block_token) :
  refines s (Frame h (VRef 0) release cat) ->
  lists_empty h' ->
  is_release (Block section) = true ->
  add_release h (VRef 0) (Block section) show_unreleased = Ok (h', release') ->
  refines (summarize show_unreleased s section) (Frame h' (VRef 0) release' cat).
Proof.
  intros (_ & _ & items & H0 & Hreg & Hnd & _) Hempty Hrel.
  simpl in H0, Hreg.
  assert (Hlen : 0 < length h) by (eapply lookup_lt_Some; exact H0).
  unfold summarize, add_release. rewrite Hrel.
  destruct (release_fields (Block section) show_unreleased) as [[[version date]|]|e];
    cbn [bind]; [| | discriminate].
  - unfold setdefault. rewrite H0.
    pose proof (entries_lookup h _ items version Hreg) as Hl.
    destruct (lookup_key version items) as [v|] eqn:El.
    + destruct Hl as (_ & _ & fields & Hfields & _). rewrite Hfields.
      intros [= <- <-]. split; [reflexivity | split; [exact Hempty |]].
      exists items. simpl. auto.
    + rewrite Hl. cbn [alloc]. intros [= <- <-].
      split; [reflexivity | split; [exact Hempty |]].
      exists (items ++ [(version, VRef (length h))]). simpl.
      split; [| split; [| split]].
      * apply list_lookup_insert_eq. rewrite length_app. simpl. lia.
      * apply Forall2_app.
        -- apply entries_agree with (a := 0) (h := h) (d := items);
             [apply agree_off_insert_alloc | exact H0 | | exact Hreg].
           exact (entries_not_changes _ _ _ Hreg).
        -- constructor; [| constructor].
           split; [reflexivity | split; [simpl; intros [= E]; lia |]].
           simpl. rewrite list_lookup_insert_ne by lia.
           now rewrite lookup_app_r, Nat.sub_diag by lia.
      * rewrite fmap_app. apply NoDup_app. split; [exact Hnd | split].
        -- intros x Hx Hx'. apply list_elem_of_singleton in Hx'. subst x.
           exact (entries_allocated _ _ _ Hreg Hx).
        -- apply NoDup_singleton.
      * rewrite lookup_key_app, El. simpl. now rewrite String.eqb_refl.
  - cbn [alloc]. intros [= <- <-].
    split; [reflexivity | split; [exact Hempty |]].
    exists items. simpl. split; [now apply lookup_app_l_Some | split; [| split]].
    + apply entries_agree with (a := 0) (h := h) (d := items);
        [apply agree_off_alloc | exact H0 | | exact Hreg].
      exact (entries_not_changes _ _ _ Hreg).
    + exact Hnd.
    + split; [intros [= E]; lia | exact (entries_allocated _ _ _ Hreg)].
Qed.

(** A category heading keeps the summary right. *)
Lemma add_category_refines show_unreleased (s : summary) (h h' : heap)
  (release cat cat' : value) (section : block_token) :
  refines s (Frame h (VRef 0) release cat) ->
  lists_empty h' ->
  is_release (Block section) = false ->
  is_category (Block section) = true ->
  add_category h release (Block section) = Ok (h', cat') ->
  refines (summarize show_unreleased s section) (Frame h' (VRef 0) release cat').
Proof.
  intros (_ & _ & items & H0 & Hreg & Hnd & Hcur) Hempty Hrel Hcat.
  simpl in H0, Hreg, Hcur.
  unfold summarize, add_category, category_name. rewrite Hrel, Hcat.
  destruct (heading_children (Block section)) as [children|e]; cbn [bind];
    [| discriminate].
  destruct (item children 0) as [token|e]; cbn [bind]; [| discriminate].
  destruct (content_of token) as [name|e]; cbn [bind]; [| discriminate].
  unfold setdefault. destruct release as [str|a]; [discriminate |].
  destruct (h !! a) as [[hf|entries]|] eqn:Ha; try discriminate.
  assert (Ha0 : a <> 0).
  { destruct (current s) as [version|].
    - pose proof (entries_lookup h _ items version Hreg) as Hl.
      rewrite Hcur in Hl. destruct Hl as (Hv & _). congruence.
    - destruct Hcur as [Hv _]. congruence. }
  destruct (lookup_key name hf) as [w|] eqn:En.
  - intros [= <- <-].
    assert (E : match current s with
                | Some version =>
                    Summary (update_key version (setdefault_field name (FList []))
                               (releases s)) (current s)
                | None => s
                end = s).
    { destruct s as [reg [version|]]; [| reflexivity]. simpl in *.
      pose proof (entries_lookup h _ items version Hreg) as Hl.
      rewrite Hcur in Hl. destruct Hl as (_ & _ & fields & Hfields & Hread).
      simpl in Hread. rewrite Ha in Hread.
      rewrite (update_key_same version _ reg fields Hfields); [reflexivity |].
      unfold setdefault_field.
      destruct (lookup_key name fields) eqn:Ef; [reflexivity |].
      apply (read_items_lookup_None _ _ _ name Hread) in Ef. congruence. }
    rewrite E. split; [reflexivity | split; [exact Hempty |]].
    exists items. simpl. auto.
  - cbn [alloc]. intros [= <- <-].
    set (h1 := <[a := Dict (hf ++ [(name, VRef (length h))])]> (h ++ [PyList []])).
    assert (Hagree : agree_off a h h1) by apply agree_off_insert_alloc.
    assert (Hlt : a < length h) by (eapply lookup_lt_Some; exact Ha).
    split; [reflexivity | split; [exact Hempty |]].
    exists items. cbn [objects current_release].
    split; [exact (Hagree 0 _ (not_eq_sym Ha0) H0) |].
    destruct (current s) as [version|] eqn:Ecur; cbn [releases current];
      rewrite ?Ecur.
    + split; [| split; [exact Hnd | exact Hcur]].
      apply entries_update with (a := a) (h := h) (d := hf); auto.
      intros fields Hread. simpl in Hread |- *. rewrite Ha in Hread.
      unfold h1. rewrite list_lookup_insert_eq by (rewrite length_app; simpl; lia).
      unfold setdefault_field.
      rewrite (proj1 (read_items_lookup_None _ _ _ name Hread) En).
      apply read_items_snoc.
      * eapply read_items_impl; [| exact Hread].
        intros v y. now apply read_field_agree with (a := a) (items := hf).
      * simpl. rewrite list_lookup_insert_ne by lia.
        now rewrite lookup_app_r, Nat.sub_diag by lia.
    + destruct Hcur as [Hv Hnot].
      split; [| split; [exact Hnd | split; assumption]].
      now apply entries_agree with (a := a) (h := h) (d := hf).
Qed.

(** One turn of the loop keeps the summary right. *)
Lemma visit_refines render show_unreleased (s : summary) (f f' : frame)
  (block : block_token) :
  refines s f ->
  visit render show_unreleased f block = Ok f' ->
  refines (summarize show_unreleased s block) f'.
Proof.
  intros Href Hvisit.
  pose proof Href as (Hc & Hempty & _).
  pose proof (visit_lists_empty _ _ _ _ _ Hempty Hvisit) as Hempty'.
  destruct f as [h c release cat]. simpl in Hc, Hempty. subst c.
  revert Hvisit. unfold visit. cbn [objects changes current_release category].
  destruct (is_release (Block block)) eqn:Hrel.
  { destruct (add_release h (VRef 0) (Block block) show_unreleased)
      as [[h1 release1]|e] eqn:E; cbn [bind]; [| discriminate].
    intros [= <-]. simpl in Hempty'.
    exact (add_release_refines _ _ _ _ _ _ _ _ Href Hempty' Hrel E). }
  destruct (is_category (Block block)) eqn:Hcat.
  { destruct (add_category h release (Block block)) as [[h1 cat1]|e] eqn:E;
      cbn [bind]; [| discriminate].
    intros [= <-]. simpl in Hempty'.
    exact (add_category_refines _ _ _ _ _ _ _ _ Href Hempty' Hrel Hcat E). }
  assert (Es : summarize show_unreleased s block = s)
    by (unfold summarize; now rewrite Hrel, Hcat).
  rewrite Es.
  destruct (is_list (Block block)) eqn:Hlist; cbn [andb]; [| now intros [= <-]].
  destruct block; try discriminate Hlist.
  intros Hvisit.
  assert (H : visit render show_unreleased (Frame h (VRef 0) release cat)
                (List children) = Ok f')
    by (unfold visit; cbn [is_release is_category is_list andb objects
                           changes current_release category]; exact Hvisit).
  now rewrite (visit_list_unchanged render show_unreleased
                 (Frame h (VRef 0) release cat) f' children Hempty H).
Qed.

Lemma visit_all_refines render show_unreleased (sections : list block_token)
  (s : summary) (f f' : frame) :
  refines s f ->
  visit_all render show_unreleased f sections = Ok f' ->
  refines (fold_left (summarize show_unreleased) sections s) f'.
Proof.
  revert s f. induction sections as [|block sections IH]; intros s f H;
    cbn [visit_all fold_left].
  - now intros [= <-].
  - destruct (visit render show_unreleased f block) as [f1|e] eqn:E; cbn [bind];
      [| discriminate].
    apply IH. exact (visit_refines _ _ _ _ _ _ H E).
Qed.

Lemma to_dict_reads_summary (render : block_token -> string)
  (parsed_changelog : list block_token) (show_unreleased : bool)
  (r : list object * value) :
  to_dict render parsed_changelog show_unreleased = Ok r ->
  read_changelog r
  = Some (releases (fold_left (summarize show_unreleased) parsed_changelog
                      (Summary [] None))).
Proof.
  unfold to_dict.
  destruct (visit_all render show_unreleased start parsed_changelog) as [f|e] eqn:E;
    cbn [bind]; [| discriminate].
  intros [= <-].
  assert (Hstart : refines (Summary [] None) start).
  { split; [reflexivity | split; [repeat constructor |]].
    exists []. simpl. split; [reflexivity | split; [constructor | split]].
    - apply NoDup_nil_2.
    - split; [discriminate | apply not_elem_of_nil]. }
  destruct (visit_all_refines _ _ _ _ _ _ Hstart E)
    as (Hc & _ & items & H0 & Hreg & _).
  unfold read_changelog. simpl. rewrite Hc, H0.
  exact (entries_read _ _ _ Hreg).
Qed.

(** X13.  What [to_dict] returns, when it returns, is what the summary of
    the document says: the releases in the order in which they were first
    registered, each with its version, its date, and then the categories
    named under it in the order in which they were first named, each with no
    entry. *)
Theorem to_dict_summary (render : block_token -> string)
  (parsed_changelog : list block_token) (show_unreleased : bool)
  (r : list object * value) :
  to_dict render parsed_changelog show_unreleased = Ok r ->
  read_changelog r
  = Some (releases (fold_left (summarize show_unreleased) parsed_changelog
                      (Summary [] None))).
Proof.
  unfold to_dict.
  destruct (visit_all render show_unreleased start parsed_changelog) as [f|e] eqn:E;
    cbn [bind]; [| discriminate].
  intros [= <-].
  assert (Hstart : refines (Summary [] None) start).
  { split; [reflexivity | split; [repeat constructor |]].
    exists []. simpl. split; [reflexivity | split; [constructor | split]].
    - apply NoDup_nil_2.
    - split; [discriminate | apply not_elem_of_nil]. }
  pose proof (visit_all_refines render show_unreleased parsed_changelog
                (Summary [] None) start f Hstart E) as Hend.
  destruct Hend as (Hc & _ & items & H0 & Hreg & _).
  unfold read_changelog. simpl. rewrite Hc, H0.
  now apply entries_read.
Qed.

Lemma to_dict_summary_witness :
  let parsed_changelog :=
    [Heading 3 [RawText "Lost"];
     Heading 2 [Link [RawText "Unreleased"] "https://x/compare/v0.3.0...main"];
     Heading 3 [RawText "Dropped"];
     Heading 2 [Link [RawText "0.3.0"] "https://x/v0.3.0"; RawText " - 2021-01-31"];
     Heading 3 [RawText "Added"];
     List [ListItem [Paragraph [RawText "A thing"]]];
     Heading 3 [RawText "Fixed"];
     Heading 2 [Link [RawText "0.2.0"] "https://x/v0.2.0"; RawText " (2020-06-01)"];
     Heading 3 [RawText "Added"];
     Heading 2 [RawText "[0.3.0]"; RawText " - 1999-01-01"];
     Heading 3 [RawText "Added"];
     Heading 3 [RawText "Security"]] in
  exists r,
    to_dict (fun _ => "A thing") parsed_changelog false = Ok r
    /\ read_changelog r
       = Some [("0.3.0", [("version", FStr "0.3.0"); ("release_date", FStr "2021-01-31");
                          ("Added", FList []); ("Fixed", FList []);
                          ("Security", FList [])]);
               ("0.2.0", [("version", FStr "0.2.0"); ("release_date", FStr "2020-06-01");
                          ("Added", FList [])])].
Proof.
  intros parsed_changelog.
  destruct (to_dict (fun _ => "A thing") parsed_changelog false) as [r|e] eqn:E;
    [| vm_compute in E; discriminate E].
  exists r. split; [reflexivity |].
  rewrite (to_dict_summary (fun _ => "A thing") parsed_changelog false r E).
  vm_compute. reflexivity.
Defined.

Lemma summarize_no_release show_unreleased (sections : list block_token)
  (s : summary) :
  Forall (fun block => is_release (Block block) = false) sections ->
  current s = None ->
  fold_left (summarize show_unreleased) sections s = s.
Proof.
  intros H Hs. induction H as [|block sections Hrel _ IH]; [reflexivity |].
  cbn [fold_left]. unfold summarize at 2. rewrite Hrel, Hs.
  destruct (is_category (Block block)); [| exact IH].
  destruct (category_name (Block block)); exact IH.
Qed.

(** X15.  What comes before the first release heading does not show: read
    with and without such blocks in front, a document gives the same
    releases. *)
Theorem to_dict_before_first_release (render : block_token -> string)
  (before parsed_changelog : list block_token) (show_unreleased : bool)
  (r r' : list object * value) :
  Forall (fun block => is_release (Block block) = false) before ->
  to_dict render (before ++ parsed_changelog) show_unreleased = Ok r ->
  to_dict render parsed_changelog show_unreleased = Ok r' ->
  read_changelog r = read_changelog r'.
Proof.
  intros Hbefore H H'.
  rewrite (to_dict_reads_summary _ _ _ _ H), (to_dict_reads_summary _ _ _ _ H').
  rewrite fold_left_app.
  now rewrite (summarize_no_release show_unreleased before (Summary [] None)
                 Hbefore eq_refl).
Qed.

Lemma to_dict_before_first_release_witness :
  let before :=
    [Heading 1 [RawText "Changelog"]; Paragraph [RawText "All notable changes."];
     Heading 3 [RawText "Stray"]; List [ListItem [Paragraph [RawText "A thing"]]]] in
  let parsed_changelog :=
    [Heading 2 [Link [RawText "0.3.0"] "https://x/v0.3.0"; RawText " - 2021-01-31"];
     Heading 3 [RawText "Added"]] in
  Forall (fun block => is_release (Block block) = false) before
  /\ exists r r',
      to_dict (fun _ => "A thing") (before ++ parsed_changelog) false = Ok r
      /\ to_dict (fun _ => "A thing") parsed_changelog false = Ok r'
      /\ read_changelog r = read_changelog r'.
Proof.
  intros before parsed_changelog.
  assert (H : Forall (fun block => is_release (Block block) = false) before)
    by (repeat constructor).
  split; [exact H |].
  destruct (to_dict (fun _ => "A thing") (before ++ parsed_changelog) false)
    as [r|e] eqn:E; [| vm_compute in E; discriminate E].
  destruct (to_dict (fun _ => "A thing") parsed_changelog false)
    as [r'|e] eqn:E'; [| vm_compute in E'; discriminate E'].
  exists r, r'. split; [reflexivity | split; [reflexivity |]].
  exact (to_dict_before_first_release (fun _ => "A thing") before parsed_changelog
           false r r' H E E').
Defined.
